(** * MemWatch dashboard server: a shallow embedding of its ingestion engine

    The definitions below transcribe the class [MemWatchDashboard]
    (the WebSocket handlers, the alert and metric rings, the chunked
    snapshot reassembly and the comparison sessions).  One handler of the
    class is one function on the record [Dashboard]; values the handlers
    read from the environment ([Date.now()], [Math.random()], whether a
    file write succeeds, what the analyzer answers) enter as arguments. *)

From Stdlib Require Import QArith Qabs Ascii.
From stdpp Require Import gmap strings list pretty.

Open Scope string_scope.
Open Scope list_scope.
Open Scope nat_scope.

(** ** Values *)

(** A JavaScript [number].  Rationals stand for doubles: the handlers store
    numbers, compare them and subtract clock readings, which is exact on
    integers; the one sum that is rounded, [Date.now() + Math.random()], is
    taken by the platform ([number_add] below). *)
Abbreviation number := Q.

(** A WebSocket object, by identity. *)
Abbreviation Conn := nat.

Definition Qgtb (x y : Q) : bool := negb (Qle_bool x y).

(** Functions of the platform that are not the server's code: [`${n}`] for
    a number, [n.toFixed(2)], [path.join], and [a + b] on two numbers, which
    gives the double nearest to the sum. *)
Class Host := {
  show_number : number → string;
  toFixed2 : number → string;
  path_join : string → string → string;
  number_add : number → number → number
}.

Inductive ServiceStatus := connected | disconnected.

Record ServiceInfo := {
  svc_name : string;
  svc_status : ServiceStatus;
  svc_connection : Conn;
  svc_registeredAt : number;
  svc_lastSeen : number;
  svc_totalAlerts : nat
}.

Record MetricData := {
  m_service : string;
  m_heapUsedMB : number;
  m_heapTotalMB : number;
  m_rssMB : number;
  m_externalMB : number;
  m_eventLoopDelayMs : number;
  m_timestamp : number;
  m_leakDetected : bool;
  m_memoryGrowthMB : number
}.

Inductive AlertType := leak | snapshot.
Inductive Severity := critical | warning | info.

Record Alert := {
  alert_id : number;
  alert_service : string;
  alert_type : AlertType;
  alert_message : string;
  alert_timestamp : number;
  alert_severity : Severity;
  alert_heapUsedMB : option number;
  alert_memoryGrowthMB : option number;
  alert_filename : option string;
  alert_filepath : option string
}.

Inductive Phase := before | after.

(** [chunks] is a JavaScript array of strings: [None] is a hole (or
    [undefined]), the list length is the array's [length]. *)
Record SnapshotData := {
  snap_id : string;
  snap_serviceName : string;
  snap_containerId : string;
  snap_phase : Phase;
  snap_timestamp : string;
  snap_size : number;
  snap_filename : string;
  snap_data : option string;
  snap_chunks : option (list (option string));
  snap_totalChunks : option nat;
  snap_receivedChunks : option nat
}.

Inductive SessionStatus := waiting | analyzing | completed | failed.

(** What the server reads of an analysis report: [summary.suspiciousGrowth]
    and [summary.totalGrowthMB].  [MemlabAnalysisResult] (the primary
    analyzer) declares no [totalGrowthMB] in its summary, [SnapshotAnalysis]
    (the fallback) does: the field is optional. *)
Record Analysis := {
  suspiciousGrowth : bool;
  totalGrowthMB : option number
}.

Record ComparisonSession := {
  sess_id : string;
  sess_serviceName : string;
  sess_containerId : string;
  sess_beforeSnapshotId : string;
  sess_afterSnapshotId : string;
  sess_timeframe : number;
  sess_status : SessionStatus;
  sess_result : option Analysis;
  sess_createdAt : number
}.

Inductive IncomingMessage :=
  | registration (service : string) (timestamp : number)
  | metricsMsg (m : MetricData)
  | snapshotMsg (service filename filepath : string) (timestamp : number)
  | capture_agent_registration (serviceName containerId : string) (timestamp : number)
  | snapshot_metadata (snapshot : SnapshotData)
  | snapshot_chunk (snapshotId : string) (chunkIndex totalChunks : nat) (data : string)
  | snapshot_complete (snapshotId : string)
  | comparison_ready (serviceName containerId beforeSnapshotId afterSnapshotId : string)
      (timeframe : number) (timestamp : string)
  | unknown_message.

(** The frames handed to [broadcastToClients], with the fields the handlers
    put in them ([snapshotProgress] carries the two counters its [progress]
    percentage is computed from). *)
Inductive Event :=
  | serviceRegistered (service : string) (timestamp : number)
  | serviceUpdate (service : string) (status : ServiceStatus)
  | metricsUpdate (m : MetricData)
  | leakAlert (a : Alert)
  | snapshotAlert (a : Alert)
  | captureAgentRegistered (serviceName containerId : string) (timestamp : number)
  | snapshotStarted (id serviceName : string) (phase : Phase) (timestamp : string) (size : number)
  | snapshotProgress (snapshotId : string) (receivedChunks totalChunks : nat)
  | snapshotCompleted (id serviceName : string) (phase : Phase) (timestamp : string)
      (size : number) (filepath : string)
  | comparisonStarted (sessionId serviceName beforeSnapshotId afterSnapshotId : string)
  | comparisonCompleted (sessionId serviceName : string) (analysis : Analysis)
  | comparisonFailed (sessionId serviceName : string) (error : string)
  | comparisonPending (sessionId serviceName : string) (missingBefore missingAfter : bool).

(** ** JavaScript containers *)

(** A [Map] iterates in insertion order and [set] on a present key keeps the
    key's place: an association list without duplicate keys. *)
Fixpoint Map_get {V} (k : string) (m : list (string * V)) : option V :=
  match m with
  | [] => None
  | (k', v) :: rest => if decide (k' = k) then Some v else Map_get k rest
  end.

Fixpoint Map_set {V} (k : string) (v : V) (m : list (string * V)) : list (string * V) :=
  match m with
  | [] => [(k, v)]
  | (k', v') :: rest =>
      if decide (k' = k) then (k, v) :: rest else (k', v') :: Map_set k v rest
  end.

(** [a[i] = v] on an array: in range it overwrites, past the end it extends
    the array with holes up to [i]. *)
Definition array_set (a : list (option string)) (i : nat) (v : string) : list (option string) :=
  if decide (i < length a) then <[i := Some v]> a
  else a ++ replicate (i - length a) None ++ [Some v].

(** [a[i]], with [None] for [undefined] (a hole or past the end). *)
Definition array_get (a : list (option string)) (i : nat) : option string :=
  mjoin (a !! i).

(** [a.join('')]: holes and [undefined] print as the empty string. *)
Fixpoint join (a : list (option string)) : string :=
  match a with
  | [] => EmptyString
  | o :: rest => default EmptyString o +:+ join rest
  end.

(** [a.slice(-n)] for a positive [n]: the last [n] elements, all of them
    when there are fewer. *)
Definition slice_last {A} (n : nat) (l : list A) : list A :=
  drop (length l - n) l.

(** [a.shift()] (the array that remains). *)
Definition shift {A} (l : list A) : list A := tail l.

(** ** The server state *)

(** The fields of the class, then what lives outside it: the session objects
    by reference ([comparisonSessions] maps an id to a reference, and a
    suspended [handleComparisonReady] keeps its own reference), the
    references whose handler is suspended at [await], the files written, the
    frames broadcast so far, and a log of every write to a session's
    [status] in program order. *)
Record Dashboard := {
  services : list (string * ServiceInfo);
  metrics : gmap string (list MetricData);
  alerts : list Alert;
  dashboardClients : gset nat;
  snapshots : gmap string SnapshotData;
  comparisonSessions : gmap string nat;
  alertCounter : Z;
  sessionObjects : list ComparisonSession;
  awaiting : list nat;
  files : gmap string string;
  published : list Event;
  statusWrites : list (nat * SessionStatus)
}.

Definition set_services (v : list (string * ServiceInfo)) (s : Dashboard) : Dashboard :=
  {| services := v;
     metrics := metrics s;
     alerts := alerts s;
     dashboardClients := dashboardClients s;
     snapshots := snapshots s;
     comparisonSessions := comparisonSessions s;
     alertCounter := alertCounter s;
     sessionObjects := sessionObjects s;
     awaiting := awaiting s;
     files := files s;
     published := published s;
     statusWrites := statusWrites s |}.

Definition set_metrics (v : gmap string (list MetricData)) (s : Dashboard) : Dashboard :=
  {| services := services s;
     metrics := v;
     alerts := alerts s;
     dashboardClients := dashboardClients s;
     snapshots := snapshots s;
     comparisonSessions := comparisonSessions s;
     alertCounter := alertCounter s;
     sessionObjects := sessionObjects s;
     awaiting := awaiting s;
     files := files s;
     published := published s;
     statusWrites := statusWrites s |}.

Definition set_alerts (v : list Alert) (s : Dashboard) : Dashboard :=
  {| services := services s;
     metrics := metrics s;
     alerts := v;
     dashboardClients := dashboardClients s;
     snapshots := snapshots s;
     comparisonSessions := comparisonSessions s;
     alertCounter := alertCounter s;
     sessionObjects := sessionObjects s;
     awaiting := awaiting s;
     files := files s;
     published := published s;
     statusWrites := statusWrites s |}.

Definition set_dashboardClients (v : gset nat) (s : Dashboard) : Dashboard :=
  {| services := services s;
     metrics := metrics s;
     alerts := alerts s;
     dashboardClients := v;
     snapshots := snapshots s;
     comparisonSessions := comparisonSessions s;
     alertCounter := alertCounter s;
     sessionObjects := sessionObjects s;
     awaiting := awaiting s;
     files := files s;
     published := published s;
     statusWrites := statusWrites s |}.

Definition set_snapshots (v : gmap string SnapshotData) (s : Dashboard) : Dashboard :=
  {| services := services s;
     metrics := metrics s;
     alerts := alerts s;
     dashboardClients := dashboardClients s;
     snapshots := v;
     comparisonSessions := comparisonSessions s;
     alertCounter := alertCounter s;
     sessionObjects := sessionObjects s;
     awaiting := awaiting s;
     files := files s;
     published := published s;
     statusWrites := statusWrites s |}.

Definition set_comparisonSessions (v : gmap string nat) (s : Dashboard) : Dashboard :=
  {| services := services s;
     metrics := metrics s;
     alerts := alerts s;
     dashboardClients := dashboardClients s;
     snapshots := snapshots s;
     comparisonSessions := v;
     alertCounter := alertCounter s;
     sessionObjects := sessionObjects s;
     awaiting := awaiting s;
     files := files s;
     published := published s;
     statusWrites := statusWrites s |}.

Definition set_alertCounter (v : Z) (s : Dashboard) : Dashboard :=
  {| services := services s;
     metrics := metrics s;
     alerts := alerts s;
     dashboardClients := dashboardClients s;
     snapshots := snapshots s;
     comparisonSessions := comparisonSessions s;
     alertCounter := v;
     sessionObjects := sessionObjects s;
     awaiting := awaiting s;
     files := files s;
     published := published s;
     statusWrites := statusWrites s |}.

Definition set_sessionObjects (v : list ComparisonSession) (s : Dashboard) : Dashboard :=
  {| services := services s;
     metrics := metrics s;
     alerts := alerts s;
     dashboardClients := dashboardClients s;
     snapshots := snapshots s;
     comparisonSessions := comparisonSessions s;
     alertCounter := alertCounter s;
     sessionObjects := v;
     awaiting := awaiting s;
     files := files s;
     published := published s;
     statusWrites := statusWrites s |}.

Definition set_awaiting (v : list nat) (s : Dashboard) : Dashboard :=
  {| services := services s;
     metrics := metrics s;
     alerts := alerts s;
     dashboardClients := dashboardClients s;
     snapshots := snapshots s;
     comparisonSessions := comparisonSessions s;
     alertCounter := alertCounter s;
     sessionObjects := sessionObjects s;
     awaiting := v;
     files := files s;
     published := published s;
     statusWrites := statusWrites s |}.

Definition set_files (v : gmap string string) (s : Dashboard) : Dashboard :=
  {| services := services s;
     metrics := metrics s;
     alerts := alerts s;
     dashboardClients := dashboardClients s;
     snapshots := snapshots s;
     comparisonSessions := comparisonSessions s;
     alertCounter := alertCounter s;
     sessionObjects := sessionObjects s;
     awaiting := awaiting s;
     files := v;
     published := published s;
     statusWrites := statusWrites s |}.

Definition set_published (v : list Event) (s : Dashboard) : Dashboard :=
  {| services := services s;
     metrics := metrics s;
     alerts := alerts s;
     dashboardClients := dashboardClients s;
     snapshots := snapshots s;
     comparisonSessions := comparisonSessions s;
     alertCounter := alertCounter s;
     sessionObjects := sessionObjects s;
     awaiting := awaiting s;
     files := files s;
     published := v;
     statusWrites := statusWrites s |}.

Definition set_statusWrites (v : list (nat * SessionStatus)) (s : Dashboard) : Dashboard :=
  {| services := services s;
     metrics := metrics s;
     alerts := alerts s;
     dashboardClients := dashboardClients s;
     snapshots := snapshots s;
     comparisonSessions := comparisonSessions s;
     alertCounter := alertCounter s;
     sessionObjects := sessionObjects s;
     awaiting := awaiting s;
     files := files s;
     published := published s;
     statusWrites := v |}.


(** What a handler reads from its environment while it runs: the clock
    ([now], and [now'] for a second reading in the same handler),
    [Math.random()], and whether the file system accepts the write. *)
Record Env := {
  now : Z;
  now' : Z;
  random : number;
  fs_ok : bool
}.

Inductive AnalysisOutcome :=
  | Resolved (analysis : Analysis)
  | Rejected (error : string).

Definition initial : Dashboard :=
  {| services := []; metrics := ∅; alerts := []; dashboardClients := ∅;
     snapshots := ∅; comparisonSessions := ∅; alertCounter := 1;
     sessionObjects := []; awaiting := []; files := ∅; published := [];
     statusWrites := [] |}.

(** ** Handlers *)

Section Handlers.
Context `{!Host}.

(** Every broadcast is one frame appended to [published]; which dashboard
    sockets are open to receive it is the sockets' matter. *)
Definition broadcastToClients (ev : Event) (s : Dashboard) : Dashboard :=
  set_published (published s ++ [ev]) s.

Definition handleServiceRegistration (ws : Conn) (service : string) (timestamp : number)
    (s : Dashboard) : Dashboard :=
  let s := set_services (Map_set service
             {| svc_name := service; svc_status := connected; svc_connection := ws;
                svc_registeredAt := timestamp; svc_lastSeen := timestamp;
                svc_totalAlerts := 0 |} (services s)) s in
  let s := match metrics s !! service with
           | Some _ => s
           | None => set_metrics (<[service := []]> (metrics s)) s
           end in
  broadcastToClients (serviceRegistered service timestamp) s.

Definition trimAlerts (s : Dashboard) : Dashboard :=
  if decide (100 < length (alerts s)) then set_alerts (slice_last 100 (alerts s)) s
  else s.

Definition handleLeakAlert (m : MetricData) (e : Env) (s : Dashboard) : Dashboard :=
  let service := m_service m in
  let s := match Map_get service (services s) with
           | Some serviceInfo =>
               set_services (Map_set service
                 {| svc_name := svc_name serviceInfo; svc_status := svc_status serviceInfo;
                    svc_connection := svc_connection serviceInfo;
                    svc_registeredAt := svc_registeredAt serviceInfo;
                    svc_lastSeen := svc_lastSeen serviceInfo;
                    svc_totalAlerts := S (svc_totalAlerts serviceInfo) |} (services s)) s
           | None => s
           end in
  let alert :=
    {| alert_id := number_add (inject_Z (now e)) (random e);
       alert_service := service;
       alert_type := leak;
       alert_message := "Memory leak detected - Heap: " +:+ show_number (m_heapUsedMB m)
                        +:+ "MB (Growth: +" +:+ show_number (m_memoryGrowthMB m) +:+ "MB)";
       alert_timestamp := m_timestamp m;
       alert_severity := critical;
       alert_heapUsedMB := Some (m_heapUsedMB m);
       alert_memoryGrowthMB := Some (m_memoryGrowthMB m);
       alert_filename := None;
       alert_filepath := None |} in
  let s := set_alerts (alerts s ++ [alert]) s in
  let s := trimAlerts s in
  broadcastToClients (leakAlert alert) s.

Definition handleMetrics (ws : Conn) (m : MetricData) (e : Env) (s : Dashboard) : Dashboard :=
  let service := m_service m in
  let s := match Map_get service (services s) with
           | Some serviceInfo =>
               set_services (Map_set service
                 {| svc_name := svc_name serviceInfo; svc_status := connected;
                    svc_connection := svc_connection serviceInfo;
                    svc_registeredAt := svc_registeredAt serviceInfo;
                    svc_lastSeen := m_timestamp m;
                    svc_totalAlerts := svc_totalAlerts serviceInfo |} (services s)) s
           | None => s
           end in
  let serviceMetrics := default [] (metrics s !! service) ++ [m] in
  let serviceMetrics :=
    if decide (1000 < length serviceMetrics) then shift serviceMetrics
    else serviceMetrics in
  let s := set_metrics (<[service := serviceMetrics]> (metrics s)) s in
  let s := if m_leakDetected m then handleLeakAlert m e s else s in
  broadcastToClients (metricsUpdate m) s.

Definition handleSnapshot (ws : Conn) (service filename filepath : string)
    (timestamp : number) (e : Env) (s : Dashboard) : Dashboard :=
  let alert :=
    {| alert_id := number_add (inject_Z (now e)) (random e);
       alert_service := service;
       alert_type := snapshot;
       alert_message := "Heap snapshot generated: " +:+ filename;
       alert_timestamp := timestamp;
       alert_severity := info;
       alert_heapUsedMB := None;
       alert_memoryGrowthMB := None;
       alert_filename := Some filename;
       alert_filepath := Some filepath |} in
  let s := set_alerts (alerts s ++ [alert]) s in
  let s := trimAlerts s in
  broadcastToClients (snapshotAlert alert) s.

Definition handleCaptureAgentRegistration (ws : Conn) (serviceName containerId : string)
    (timestamp : number) (s : Dashboard) : Dashboard :=
  let name := "capture-" +:+ serviceName in
  let s := set_services (Map_set name
             {| svc_name := name; svc_status := connected; svc_connection := ws;
                svc_registeredAt := timestamp; svc_lastSeen := timestamp;
                svc_totalAlerts := 0 |} (services s)) s in
  broadcastToClients (captureAgentRegistered serviceName containerId timestamp) s.

Definition handleSnapshotMetadata (ws : Conn) (snapshot : SnapshotData)
    (s : Dashboard) : Dashboard :=
  let stored :=
    {| snap_id := snap_id snapshot; snap_serviceName := snap_serviceName snapshot;
       snap_containerId := snap_containerId snapshot; snap_phase := snap_phase snapshot;
       snap_timestamp := snap_timestamp snapshot; snap_size := snap_size snapshot;
       snap_filename := snap_filename snapshot; snap_data := snap_data snapshot;
       snap_chunks := Some [];
       snap_totalChunks := snap_totalChunks snapshot;
       snap_receivedChunks := Some 0 |} in
  let s := set_snapshots (<[snap_id snapshot := stored]> (snapshots s)) s in
  broadcastToClients (snapshotStarted (snap_id snapshot) (snap_serviceName snapshot)
                        (snap_phase snapshot) (snap_timestamp snapshot) (snap_size snapshot)) s.

(** The snapshot object after [if (!snapshot.chunks) { ... }]: an array, also
    the empty one, is truthy. *)
Definition init_chunks (totalChunks : nat) (snapshot : SnapshotData) : SnapshotData :=
  match snap_chunks snapshot with
  | Some _ => snapshot
  | None =>
      {| snap_id := snap_id snapshot; snap_serviceName := snap_serviceName snapshot;
         snap_containerId := snap_containerId snapshot; snap_phase := snap_phase snapshot;
         snap_timestamp := snap_timestamp snapshot; snap_size := snap_size snapshot;
         snap_filename := snap_filename snapshot; snap_data := snap_data snapshot;
         snap_chunks := Some (replicate totalChunks None);
         snap_totalChunks := Some totalChunks;
         snap_receivedChunks := Some 0 |}
  end.

(** [snapshot.chunks[chunkIndex] = data] and
    [snapshot.receivedChunks = (snapshot.receivedChunks || 0) + 1]. *)
Definition store_chunk (chunkIndex : nat) (data : string) (snapshot : SnapshotData) : SnapshotData :=
  {| snap_id := snap_id snapshot; snap_serviceName := snap_serviceName snapshot;
     snap_containerId := snap_containerId snapshot; snap_phase := snap_phase snapshot;
     snap_timestamp := snap_timestamp snapshot; snap_size := snap_size snapshot;
     snap_filename := snap_filename snapshot; snap_data := snap_data snapshot;
     snap_chunks := Some (array_set (default [] (snap_chunks snapshot)) chunkIndex data);
     snap_totalChunks := snap_totalChunks snapshot;
     snap_receivedChunks := Some (default 0 (snap_receivedChunks snapshot) + 1) |}.

Definition handleSnapshotChunk (ws : Conn) (snapshotId : string)
    (chunkIndex totalChunks : nat) (data : string) (s : Dashboard) : Dashboard :=
  match snapshots s !! snapshotId with
  | None => s
  | Some snap =>
      let snap := store_chunk chunkIndex data (init_chunks totalChunks snap) in
      let s := set_snapshots (<[snapshotId := snap]> (snapshots s)) s in
      broadcastToClients
        (snapshotProgress snapshotId (default 0 (snap_receivedChunks snap)) totalChunks) s
  end.

Definition snapshotsDir : string := "./dashboard-snapshots".

(** When the file system refuses the directory or the write ([fs_ok] false)
    the exception leaves the handler after [snapshot.data] was assigned:
    no file, no frame. *)
Definition handleSnapshotComplete (ws : Conn) (snapshotId : string) (e : Env)
    (s : Dashboard) : Dashboard :=
  match snapshots s !! snapshotId with
  | None => s
  | Some snap =>
      match snap_chunks snap with
      | None => s
      | Some chunks =>
          let data := join chunks in
          let snap :=
            {| snap_id := snap_id snap; snap_serviceName := snap_serviceName snap;
               snap_containerId := snap_containerId snap; snap_phase := snap_phase snap;
               snap_timestamp := snap_timestamp snap; snap_size := snap_size snap;
               snap_filename := snap_filename snap; snap_data := Some data;
               snap_chunks := Some chunks;
               snap_totalChunks := snap_totalChunks snap;
               snap_receivedChunks := snap_receivedChunks snap |} in
          let s := set_snapshots (<[snapshotId := snap]> (snapshots s)) s in
          if fs_ok e then
            let filepath := path_join snapshotsDir (snap_filename snap) in
            let s := set_files (<[filepath := data]> (files s)) s in
            broadcastToClients
              (snapshotCompleted (snap_id snap) (snap_serviceName snap)
                 (snap_phase snap) (snap_timestamp snap) (snap_size snap)
                 filepath) s
          else s
      end
  end.

(** [snapshot?.data] as a condition: the snapshot exists and its [data] is a
    non-empty string. *)
Definition has_data (o : option SnapshotData) : bool :=
  match o with
  | Some snap =>
      match snap_data snap with
      | Some d => if decide (d = EmptyString) then false else true
      | None => false
      end
  | None => false
  end.

(** [session.status = st] on the session object behind reference [r]. *)
Definition with_status (st : SessionStatus) (o : ComparisonSession) : ComparisonSession :=
  {| sess_id := sess_id o; sess_serviceName := sess_serviceName o;
     sess_containerId := sess_containerId o;
     sess_beforeSnapshotId := sess_beforeSnapshotId o;
     sess_afterSnapshotId := sess_afterSnapshotId o;
     sess_timeframe := sess_timeframe o; sess_status := st;
     sess_result := sess_result o; sess_createdAt := sess_createdAt o |}.

Definition with_result (a : Analysis) (o : ComparisonSession) : ComparisonSession :=
  {| sess_id := sess_id o; sess_serviceName := sess_serviceName o;
     sess_containerId := sess_containerId o;
     sess_beforeSnapshotId := sess_beforeSnapshotId o;
     sess_afterSnapshotId := sess_afterSnapshotId o;
     sess_timeframe := sess_timeframe o; sess_status := sess_status o;
     sess_result := Some a; sess_createdAt := sess_createdAt o |}.

Definition set_status (r : nat) (st : SessionStatus) (s : Dashboard) : Dashboard :=
  let s := set_sessionObjects (alter (with_status st) r (sessionObjects s)) s in
  set_statusWrites (statusWrites s ++ [(r, st)]) s.

Definition set_result (r : nat) (a : Analysis) (s : Dashboard) : Dashboard :=
  set_sessionObjects (alter (with_result a) r (sessionObjects s)) s.

(** [handleComparisonReady] up to its [await]: the new session object gets
    the next reference; when both snapshots have data the handler suspends
    in [performSnapshotAnalysis] and its reference joins [awaiting]. *)
Definition handleComparisonReady (ws : Conn)
    (serviceName containerId beforeSnapshotId afterSnapshotId : string)
    (timeframe : number) (timestamp : string) (e : Env) (s : Dashboard) : Dashboard :=
  let sessionId := "comparison_" +:+ serviceName +:+ "_" +:+ show_number (inject_Z (now e)) in
  let session :=
    {| sess_id := sessionId; sess_serviceName := serviceName;
       sess_containerId := containerId;
       sess_beforeSnapshotId := beforeSnapshotId;
       sess_afterSnapshotId := afterSnapshotId;
       sess_timeframe := timeframe; sess_status := waiting;
       sess_result := None; sess_createdAt := inject_Z (now' e) |} in
  let r := length (sessionObjects s) in
  let s := set_sessionObjects (sessionObjects s ++ [session]) s in
  let s := set_statusWrites (statusWrites s ++ [(r, waiting)]) s in
  let s := set_comparisonSessions (<[sessionId := r]> (comparisonSessions s)) s in
  let beforeSnapshot := snapshots s !! beforeSnapshotId in
  let afterSnapshot := snapshots s !! afterSnapshotId in
  if has_data beforeSnapshot && has_data afterSnapshot then
    let s := set_status r analyzing s in
    let s := broadcastToClients
               (comparisonStarted sessionId serviceName beforeSnapshotId afterSnapshotId) s in
    set_awaiting (awaiting s ++ [r]) s
  else
    broadcastToClients
      (comparisonPending sessionId serviceName
         (negb (has_data beforeSnapshot)) (negb (has_data afterSnapshot))) s.

(** The message of the [TypeError] that [undefined.toFixed(2)] throws. *)
Definition toFixed_of_undefined : string :=
  "Cannot read properties of undefined (reading 'toFixed')".

(** The [catch] block of [handleComparisonReady]. *)
Definition comparison_catch (r : nat) (sessionId serviceName error : string)
    (s : Dashboard) : Dashboard :=
  let s := set_status r failed s in
  broadcastToClients (comparisonFailed sessionId serviceName error) s.

(** [handleComparisonReady] from its [await] on, for the handler that holds
    session reference [r]: nothing happens unless that handler is suspended.
    [sessionId] and [serviceName] are the handler's constants, read back from
    the session object, whose [id] and [serviceName] are never assigned.
    In the object literal of the alert [id: this.alertCounter++] is evaluated
    before [message], where [totalGrowthMB.toFixed(2)] throws when the
    summary has no [totalGrowthMB]; the throw is inside the [try]. *)
Definition analysisSettled (r : nat) (outcome : AnalysisOutcome) (e : Env)
    (s : Dashboard) : Dashboard :=
  if decide (r ∈ awaiting s) then
    match sessionObjects s !! r with
    | None => s
    | Some session =>
        let sessionId := sess_id session in
        let serviceName := sess_serviceName session in
        let s := set_awaiting (filter (λ r', r' ≠ r) (awaiting s)) s in
        match outcome with
        | Rejected error => comparison_catch r sessionId serviceName error s
        | Resolved analysis =>
            let s := set_status r completed s in
            let s := set_result r analysis s in
            let s := broadcastToClients
                       (comparisonCompleted sessionId serviceName analysis) s in
            if suspiciousGrowth analysis then
              let id := alertCounter s in
              let s := set_alertCounter (alertCounter s + 1)%Z s in
              match totalGrowthMB analysis with
              | None => comparison_catch r sessionId serviceName toFixed_of_undefined s
              | Some growth =>
                  set_alerts (alerts s ++ [
                    {| alert_id := inject_Z id;
                       alert_service := serviceName;
                       alert_type := leak;
                       alert_message := "Memory leak detected: " +:+ toFixed2 growth
                                        +:+ "MB growth";
                       alert_timestamp := inject_Z (now e);
                       alert_severity := if Qgtb growth 50 then critical else warning;
                       alert_heapUsedMB := None;
                       alert_memoryGrowthMB := None;
                       alert_filename := None;
                       alert_filepath := None |}]) s
              end
            else s
        end
    end
  else s.

Definition handleAgentMessage (ws : Conn) (message : IncomingMessage) (e : Env)
    (s : Dashboard) : Dashboard :=
  match message with
  | registration service timestamp => handleServiceRegistration ws service timestamp s
  | metricsMsg m => handleMetrics ws m e s
  | snapshotMsg service filename filepath timestamp =>
      handleSnapshot ws service filename filepath timestamp e s
  | capture_agent_registration serviceName containerId timestamp =>
      handleCaptureAgentRegistration ws serviceName containerId timestamp s
  | snapshot_metadata snap => handleSnapshotMetadata ws snap s
  | snapshot_chunk snapshotId chunkIndex totalChunks data =>
      handleSnapshotChunk ws snapshotId chunkIndex totalChunks data s
  | snapshot_complete snapshotId => handleSnapshotComplete ws snapshotId e s
  | comparison_ready serviceName containerId beforeSnapshotId afterSnapshotId
      timeframe timestamp =>
      handleComparisonReady ws serviceName containerId beforeSnapshotId afterSnapshotId
        timeframe timestamp e s
  | unknown_message => s
  end.

(** The loop of the [close] listener: the first service, in the map's
    order, whose connection is the closed socket is marked and announced,
    and [break] ends the scan. *)
Fixpoint close_scan (ws : Conn) (t : number) (l : list (string * ServiceInfo))
    : list (string * ServiceInfo) * list Event :=
  match l with
  | [] => ([], [])
  | (serviceName, service) :: rest =>
      if decide (svc_connection service = ws) then
        ((serviceName,
          {| svc_name := svc_name service; svc_status := disconnected;
             svc_connection := svc_connection service;
             svc_registeredAt := svc_registeredAt service;
             svc_lastSeen := t;
             svc_totalAlerts := svc_totalAlerts service |}) :: rest,
         [serviceUpdate serviceName disconnected])
      else
        let '(rest', evs) := close_scan ws t rest in
        ((serviceName, service) :: rest', evs)
  end.

Definition on_close (ws : Conn) (e : Env) (s : Dashboard) : Dashboard :=
  let s := set_dashboardClients (dashboardClients s ∖ {[ws]}) s in
  let '(services', evs) := close_scan ws (inject_Z (now e)) (services s) in
  let s := set_services services' s in
  set_published (published s ++ evs) s.

(** The periodic cleanup started by [start]: no [break] here. *)
Fixpoint sweep_scan (t : number) (l : list (string * ServiceInfo))
    : list (string * ServiceInfo) * list Event :=
  match l with
  | [] => ([], [])
  | (serviceName, service) :: rest =>
      let '(rest', evs) := sweep_scan t rest in
      match svc_status service with
      | connected =>
          if Qgtb (t - svc_lastSeen service)%Q 60000 then
            ((serviceName,
              {| svc_name := svc_name service; svc_status := disconnected;
                 svc_connection := svc_connection service;
                 svc_registeredAt := svc_registeredAt service;
                 svc_lastSeen := svc_lastSeen service;
                 svc_totalAlerts := svc_totalAlerts service |}) :: rest',
             serviceUpdate serviceName disconnected :: evs)
          else ((serviceName, service) :: rest', evs)
      | disconnected => ((serviceName, service) :: rest', evs)
      end
  end.

Definition on_sweep (e : Env) (s : Dashboard) : Dashboard :=
  let '(services', evs) := sweep_scan (inject_Z (now e)) (services s) in
  let s := set_services services' s in
  set_published (published s ++ evs) s.

(** A socket connects; one whose URL names the dashboard joins the clients. *)
Definition on_connection (ws : Conn) (dashboard : bool) (s : Dashboard) : Dashboard :=
  if dashboard then set_dashboardClients ({[ws]} ∪ dashboardClients s) s else s.

(** ** Executions *)

(** What the event loop can run next. *)
Inductive Input :=
  | Connection (ws : Conn) (dashboard : bool)
  | Message (ws : Conn) (message : IncomingMessage) (e : Env)
  | Close (ws : Conn) (e : Env)
  | Sweep (e : Env)
  | AnalysisSettled (r : nat) (outcome : AnalysisOutcome) (e : Env).

Definition step (s : Dashboard) (i : Input) : Dashboard :=
  match i with
  | Connection ws dashboard => on_connection ws dashboard s
  | Message ws message e => handleAgentMessage ws message e s
  | Close ws e => on_close ws e s
  | Sweep e => on_sweep e s
  | AnalysisSettled r outcome e => analysisSettled r outcome e s
  end.

Definition run (s : Dashboard) (inputs : list Input) : Dashboard :=
  foldl step s inputs.

End Handlers.

(** ** A host for closed examples *)

(** Integers print in decimal, as JavaScript prints them; the examples below
    print no other number (a fraction shows as [p/q]). *)
Definition decimal (q : number) : string :=
  if decide (Qden q = 1%positive) then pretty (Qnum q)
  else pretty (Qnum q) +:+ "/" +:+ pretty (Zpos (Qden q)).

(** Two decimals: the sign first, then the magnitude rounded to the nearest
    hundredth, a tie going up, as [toFixed] does it. *)
Definition fixed2 (q : number) : string :=
  let a := ((2 * 100 * Z.abs (Qnum q) + Zpos (Qden q)) / (2 * Zpos (Qden q)))%Z in
  let cents := (a mod 100)%Z in
  (if decide (Qnum q < 0)%Z then "-" else EmptyString) +:+ pretty (a / 100)%Z +:+ "."
  +:+ (if decide (cents < 10)%Z then "0" else EmptyString) +:+ pretty cents.

(** [path.join] of a directory written [./d] and a plain file name. *)
Definition join_plain (dir file : string) : string :=
  match dir with
  | String "."%char (String "/"%char d) => d +:+ "/" +:+ file
  | _ => dir +:+ "/" +:+ file
  end.

(** The integer nearest to [n / d] for a positive [d], a tie going to the
    even one. *)
Definition nearest_even (n d : Z) : Z :=
  let q := (n / d)%Z in
  let r := (n mod d)%Z in
  if decide (2 * r < d)%Z then q
  else if decide (d < 2 * r)%Z then (q + 1)%Z
  else if Z.even q then q else (q + 1)%Z.

(** The exponent [b] with [2 ^ b <= n / d < 2 ^ (b + 1)], for positive [n]
    and [d]. *)
Definition binade (n d : Z) : Z :=
  if decide (d <= n)%Z then Z.log2 (n / d)
  else (- Z.log2_up ((d + n - 1) / n))%Z.

(** The double nearest to a rational: 53 significant bits, a tie going to
    the even significand, exponents from -1022 (below it the spacing stays
    that of the smallest normal doubles).  Sums beyond the largest double,
    which give [Infinity], are outside the examples. *)
Definition to_double (x : number) : number :=
  let n := Z.abs (Qnum x) in
  let d := Zpos (Qden x) in
  if decide (n = 0)%Z then 0%Q
  else
    let k := (52 - Z.max (binade n d) (-1022))%Z in
    let m := if decide (0 <= k)%Z then nearest_even (n * 2 ^ k) d
             else nearest_even n (d * 2 ^ (- k)) in
    let v := if decide (0 <= k)%Z then Qred (m # Z.to_pos (2 ^ k))
             else inject_Z (m * 2 ^ (- k)) in
    if decide (Qnum x < 0)%Z then Qopp v else v.

(** [a + b] on doubles. *)
Definition double_add (x y : number) : number := to_double (x + y).

Definition node_host : Host :=
  {| show_number := decimal; toFixed2 := fixed2; path_join := join_plain;
     number_add := double_add |}.

(** ** Observations used by the statements *)

(** The metric ring of a service, as every reader takes it:
    [this.metrics.get(service) || []]. *)
Definition ring (service : string) (s : Dashboard) : list MetricData :=
  default [] (metrics s !! service).

(** The metric samples for [service] among the inputs, in arrival order. *)
Fixpoint arrivals (service : string) (inputs : list Input) : list MetricData :=
  match inputs with
  | [] => []
  | Message _ (metricsMsg m) _ :: rest =>
      if decide (m_service m = service) then m :: arrivals service rest
      else arrivals service rest
  | _ :: rest => arrivals service rest
  end.

(** The values written to the [status] of the session behind [r], oldest
    first. *)
Definition status_trace (r : nat) (s : Dashboard) : list SessionStatus :=
  (filter (λ w, w.1 = r) (statusWrites s)).*2.

(** An analysis outcome on which the continuation does not throw: a
    suspicious report carries [totalGrowthMB]. *)
Definition tame (i : Input) : Prop :=
  match i with
  | AnalysisSettled _ (Resolved a) _ => suspiciousGrowth a = true → is_Some (totalGrowthMB a)
  | _ => True
  end.

(** The status writes a session in status [st] can have seen: a path
    waiting, analyzing, then completed or failed; with [permissive], also
    the overwrite of completed by failed. *)
Definition status_path (permissive : bool) (st : SessionStatus) (tr : list SessionStatus) : Prop :=
  match st with
  | waiting => tr = [waiting]
  | analyzing => tr = [waiting; analyzing]
  | completed => tr = [waiting; analyzing; completed]
  | failed => tr = [waiting; analyzing; failed]
              ∨ (permissive = true ∧ tr = [waiting; analyzing; completed; failed])
  end.

(** What every reachable state satisfies about its sessions. *)
Record sessions_inv (permissive : bool) (s : Dashboard) : Prop := {
  inv_writes : ∀ r st, (r, st) ∈ statusWrites s → r < length (sessionObjects s);
  inv_trace : ∀ r o, sessionObjects s !! r = Some o →
                status_path permissive (sess_status o) (status_trace r s);
  inv_awaiting : ∀ r, r ∈ awaiting s →
                   (sess_status <$> sessionObjects s !! r) = Some analyzing
}.

Definition alert_ids (s : Dashboard) : list number := alert_id <$> alerts s.

(** Each identifier is below the next one. *)
Fixpoint strictly_increasing (l : list number) : bool :=
  match l with
  | x :: (y :: _) as rest => Qgtb y x && strictly_increasing rest
  | _ => true
  end.

Definition concat_strings (l : list string) : string :=
  foldr String.append EmptyString l.

(** The chunk messages of a snapshot, one for each [(index, payload)]. *)
Definition chunk_inputs (ws : Conn) (snapshotId : string) (totalChunks : nat) (e : Env)
    (cs : list (nat * string)) : list Input :=
  (λ c, Message ws (snapshot_chunk snapshotId c.1 totalChunks c.2) e) <$> cs.

(** The chunk table after the writes [cs], in that order. *)
Definition received (a : list (option string)) (cs : list (nat * string)) : list (option string) :=
  foldl (λ a c, array_set a c.1 c.2) a cs.

(** Payloads paired with their position. *)
Definition indexed (payloads : list string) : list (nat * string) :=
  imap (λ i d, (i, d)) payloads.

(** For every stored snapshot that has both counters,
    [receivedChunks <= totalChunks]. *)
Definition received_le_total (s : Dashboard) : Prop :=
  ∀ id snap r t,
    snapshots s !! id = Some snap →
    snap_receivedChunks snap = Some r → snap_totalChunks snap = Some t → r ≤ t.


(** ** Scenarios *)

Definition env0 : Env := {| now := 1700000000000; now' := 1700000000000; random := 0; fs_ok := true |}.

Definition meta (id : string) (ph : Phase) (filename : string) (total : nat) : SnapshotData :=
  {| snap_id := id; snap_serviceName := "svc-a"; snap_containerId := "c1";
     snap_phase := ph; snap_timestamp := "2024-01-01T00:00:00Z"; snap_size := 9;
     snap_filename := filename; snap_data := None; snap_chunks := None;
     snap_totalChunks := Some total; snap_receivedChunks := None |}.

Definition sample (service : string) (t : Z) (leaking : bool) : MetricData :=
  {| m_service := service; m_heapUsedMB := 120; m_heapTotalMB := 200; m_rssMB := 300;
     m_externalMB := 5; m_eventLoopDelayMs := 2; m_timestamp := inject_Z t;
     m_leakDetected := leaking; m_memoryGrowthMB := 1 |}.

(** One index sent twice. *)
Definition duplicate_chunk_inputs : list Input :=
  [ Message 1 (snapshot_metadata (meta "s1" before "one.heapsnapshot" 1)) env0;
    Message 1 (snapshot_chunk "s1" 0 1 "a") env0;
    Message 1 (snapshot_chunk "s1" 0 1 "b") env0 ].

(** The completion message after one chunk of three; the other two follow. *)
Definition early_complete_inputs : list Input :=
  [ Message 1 (snapshot_metadata (meta "s1" before "b.heapsnapshot" 3)) env0;
    Message 1 (snapshot_chunk "s1" 0 3 "abc") env0;
    Message 1 (snapshot_complete "s1") env0 ].


(** Two complete snapshots of one chunk each. *)
Definition two_snapshots : list Input :=
  [ Message 1 (snapshot_metadata (meta "before_svc-a_1" before "b.heapsnapshot" 1)) env0;
    Message 1 (snapshot_chunk "before_svc-a_1" 0 1 "abc") env0;
    Message 1 (snapshot_complete "before_svc-a_1") env0;
    Message 1 (snapshot_metadata (meta "after_svc-a_2" after "a.heapsnapshot" 1)) env0;
    Message 1 (snapshot_chunk "after_svc-a_2" 0 1 "abcdef") env0;
    Message 1 (snapshot_complete "after_svc-a_2") env0 ].

Definition compare_message : Input :=
  Message 1 (comparison_ready "svc-a" "c1" "before_svc-a_1" "after_svc-a_2" 60
               "2024-01-01T00:01:00Z") env0.

(** A report of the fallback analyzer, and one of the primary analyzer,
    whose summary has no [totalGrowthMB]. *)
Definition fallback_report : Analysis :=
  {| suspiciousGrowth := true; totalGrowthMB := Some 60%Q |}.

Definition memlab_report : Analysis :=
  {| suspiciousGrowth := true; totalGrowthMB := None |}.

(** A comparison the fallback analyzer finds suspicious. *)
Definition comparison_inputs : list Input :=
  two_snapshots ++ [compare_message; AnalysisSettled 0 (Resolved fallback_report) env0].

(** A comparison the primary analyzer finds suspicious. *)
Definition memlab_comparison_inputs : list Input :=
  two_snapshots ++ [compare_message; AnalysisSettled 0 (Resolved memlab_report) env0].

(** One hundred snapshot notifications, then the comparison. *)
Definition full_ring_inputs : list Input :=
  replicate 100 (Message 1 (snapshotMsg "svc-a" "x.heapsnapshot" "/tmp/x.heapsnapshot" 1) env0)
  ++ comparison_inputs.

(** A snapshot notification, then the comparison. *)
Definition mixed_alert_inputs : list Input :=
  Message 1 (snapshotMsg "svc-a" "x.heapsnapshot" "/tmp/x.heapsnapshot" 1) env0
  :: comparison_inputs.

(** One socket registers two services and closes. *)
Definition shared_socket_inputs : list Input :=
  [ Message 7 (registration "svc-a" 1000000) env0;
    Message 7 (registration "svc-b" 1000001) env0;
    Close 7 env0 ].

(** A service with one leak alert and one sample registers again. *)
Definition reregistration_state : Dashboard :=
  run (H := node_host) initial
    [ Message 1 (registration "svc-a" 1000000) env0;
      Message 1 (metricsMsg (sample "svc-a" 1000100 true)) env0 ].

(** Only the second snapshot is missing when the comparison is asked for. *)
Definition pending_state : Dashboard :=
  run (H := node_host) initial (take 3 two_snapshots).

(** ** The query surface *)

(** [a.slice(start)] with one argument: a negative [start] counts from the
    end, and both ends are clamped to the array. *)
Definition slice_from {A} (start : Z) (l : list A) : list A :=
  let len := Z.of_nat (length l) in
  let k := if decide (start < 0)%Z then Z.max (len + start) 0 else Z.min start len in
  drop (Z.to_nat k) l.

(** [-parseInt(limit)] as [slice] takes it: [parseInt] gives an integer or
    [NaN] ([None]), and [slice(NaN)] is [slice(0)]. *)
Definition minus_limit (limit : option Z) : Z :=
  match limit with
  | Some n => (- n)%Z
  | None => 0%Z
  end.

(** A query parameter used as a condition: absent and empty are falsy. *)
Definition given (o : option string) : option string :=
  match o with
  | Some v => if decide (v = EmptyString) then None else Some v
  | None => None
  end.

Definition getLastMetrics (serviceName : string) (s : Dashboard) : option MetricData :=
  last (default [] (metrics s !! serviceName)).

Definition getRecentAlerts (limit : Z) (s : Dashboard) : list Alert :=
  reverse (slice_from (- limit) (alerts s)).

(** A service as [getServicesData] serializes it: the record without its
    connection, with the last metric sample. *)
Record ServiceView := {
  view_name : string;
  view_status : ServiceStatus;
  view_registeredAt : number;
  view_lastSeen : number;
  view_totalAlerts : nat;
  view_lastMetrics : option MetricData
}.

Definition is_connected (service : ServiceInfo) : bool :=
  match svc_status service with
  | connected => true
  | disconnected => false
  end.

Definition getServicesData (s : Dashboard) : list ServiceView :=
  (λ p : string * ServiceInfo,
     {| view_name := svc_name p.2; view_status := svc_status p.2;
        view_registeredAt := svc_registeredAt p.2; view_lastSeen := svc_lastSeen p.2;
        view_totalAlerts := svc_totalAlerts p.2;
        view_lastMetrics := getLastMetrics (svc_name p.2) s |})
  <$> filter (λ p, is_connected p.2 = true) (services s).

Definition severity_name (v : Severity) : string :=
  match v with
  | critical => "critical"
  | warning => "warning"
  | info => "info"
  end.

(** [GET /api/alerts]: [limit] is what [parseInt] made of the parameter (or
    of its default), [service] and [severity] are the parameters as sent. *)
Record AlertsResponse := {
  resp_alerts : list Alert;
  resp_total : nat
}.

Definition filtered_alerts (service severity : option string) (s : Dashboard) : list Alert :=
  let filteredAlerts := alerts s in
  let filteredAlerts :=
    match given service with
    | Some v => filter (λ a, alert_service a = v) filteredAlerts
    | None => filteredAlerts
    end in
  match given severity with
  | Some v => filter (λ a, severity_name (alert_severity a) = v) filteredAlerts
  | None => filteredAlerts
  end.

Definition api_alerts (limit : option Z) (service severity : option string)
    (s : Dashboard) : AlertsResponse :=
  let filteredAlerts := filtered_alerts service severity s in
  {| resp_alerts := reverse (slice_from (minus_limit limit) filteredAlerts);
     resp_total := length filteredAlerts |}.

(** [GET /api/services/:serviceName/metrics].  [from] and [to] are [None]
    when the parameter is absent or empty, and otherwise carry what
    [parseInt] made of it; a comparison with [NaN] is false. *)
Record MetricsResponse := {
  resp_service : string;
  resp_metrics : list MetricData;
  resp_metrics_total : nat
}.

Definition in_window (fromTime toTime : option Z) (m : MetricData) : bool :=
  match fromTime, toTime with
  | Some lo, Some hi =>
      Qle_bool (inject_Z lo) (m_timestamp m) && Qle_bool (m_timestamp m) (inject_Z hi)
  | _, _ => false
  end.

Definition api_metrics (serviceName : string) (limit : option Z)
    (from to : option (option Z)) (e : Env) (s : Dashboard) : MetricsResponse :=
  let serviceMetrics := default [] (metrics s !! serviceName) in
  let filteredMetrics :=
    match from, to with
    | None, None => serviceMetrics
    | _, _ =>
        let fromTime := match from with Some parsed => parsed | None => Some 0%Z end in
        let toTime := match to with Some parsed => parsed | None => Some (now e) end in
        filter (λ m, in_window fromTime toTime m = true) serviceMetrics
    end in
  {| resp_service := serviceName;
     resp_metrics := slice_from (minus_limit limit) filteredMetrics;
     resp_metrics_total := length filteredMetrics |}.

(** [GET /api/stats], without the figures of the process. *)
Record Stats := {
  stat_totalServices : nat;
  stat_connectedServices : nat;
  stat_totalAlerts : nat;
  stat_criticalAlerts : nat;
  stat_dashboardClients : nat
}.

Definition api_stats (s : Dashboard) : Stats :=
  {| stat_totalServices := length (services s);
     stat_connectedServices :=
       length (filter (λ p, is_connected p.2 = true) (services s));
     stat_totalAlerts := length (alerts s);
     stat_criticalAlerts :=
       length (filter (λ a, severity_name (alert_severity a) = "critical") (alerts s));
     stat_dashboardClients := size (dashboardClients s) |}.

(** How many of the inputs resume a comparison handler. *)
Fixpoint analysis_completions (inputs : list Input) : nat :=
  match inputs with
  | [] => 0
  | AnalysisSettled _ _ _ :: rest => S (analysis_completions rest)
  | _ :: rest => analysis_completions rest
  end.

(** The test of the periodic cleanup, and what it does to a service that
    meets it. *)
Definition expired (t : number) (service : ServiceInfo) : bool :=
  is_connected service && Qgtb (t - svc_lastSeen service)%Q 60000.

Definition mark_disconnected (service : ServiceInfo) : ServiceInfo :=
  {| svc_name := svc_name service; svc_status := disconnected;
     svc_connection := svc_connection service;
     svc_registeredAt := svc_registeredAt service;
     svc_lastSeen := svc_lastSeen service;
     svc_totalAlerts := svc_totalAlerts service |}.

(** An alert passes the filters of the alerts query: each filter that is
    given (non-empty) equals the alert's field, as text. *)
Definition alert_matches (service severity : option string) (a : Alert) : bool :=
  match given service with
  | Some v => bool_decide (alert_service a = v)
  | None => true
  end
  && match given severity with
     | Some v => bool_decide (severity_name (alert_severity a) = v)
     | None => true
     end.


(** A registered service whose socket closed, and a leaking sample. *)
Definition closed_service_state : Dashboard :=
  run (H := node_host) initial
    [ Message 7 (registration "svc-a" 1000000) env0; Close 7 env0 ].

(** The services map is well formed: no name twice, and each record stored
    under its own name. *)
Definition services_wf (l : list (string * ServiceInfo)) : Prop :=
  NoDup l.*1 ∧ Forall (λ p, svc_name p.2 = p.1) l.

(** From [l] to [l'] the names already present keep their places, and well
    formedness is kept. *)
Definition services_grow (l l' : list (string * ServiceInfo)) : Prop :=
  l.*1 `prefix_of` l'.*1 ∧ (services_wf l → services_wf l').

(** Every stored snapshot sits under its own id and has a chunk table and
    a counter. *)
Definition snapshots_wf (m : gmap string SnapshotData) : Prop :=
  ∀ id snap, m !! id = Some snap →
    snap_id snap = id ∧ is_Some (snap_chunks snap) ∧ is_Some (snap_receivedChunks snap).

(** A file system that refuses the write. *)
Definition env_disk_full : Env :=
  {| now := 1700000000000; now' := 1700000000000; random := 0; fs_ok := false |}.

(** ** The standalone HTTP snapshot server *)

(** [simple-http-server.js]: snapshots arrive whole by [POST], comparisons
    are computed from the two sizes. *)
Record UploadedSnapshot := {
  up_id : string;
  up_serviceName : string;
  up_containerId : string;
  up_phase : string;
  up_timestamp : string;
  up_size : nat;
  up_filename : string;
  up_data : string
}.

(** The analysis object of a comparison; [sa_growthAdvice] tells which of
    its two texts the first recommendation is (the growth warning, or the
    note that memory appears stable). *)
Record SimpleAnalysis := {
  sa_totalGrowthMB : number;
  sa_suspiciousGrowth : bool;
  sa_confidence : number;
  sa_leakCount : nat;
  sa_growthAdvice : bool
}.

Record StoredComparison := {
  cmp_sessionId : string;
  cmp_serviceName : string;
  cmp_beforeSnapshotId : string;
  cmp_afterSnapshotId : string;
  cmp_analysis : SimpleAnalysis;
  cmp_createdAt : Z
}.

Record SimpleServer := {
  simple_snapshots : list (string * UploadedSnapshot);
  simple_comparisons : list (string * StoredComparison);
  simple_files : gmap string string
}.

(** The responses of the two [POST] routes, by status. *)
Inductive Response :=
  | upload_ok (snapshotId : string) (size : nat)
  | compare_ok (sessionId : string) (analysis : SimpleAnalysis)
  | bad_request
  | not_found (missingBefore missingAfter : bool)
  | server_error.

(** The analysis of [POST /api/snapshots/compare], from the two sizes. *)
Definition compare_analysis (beforeSize afterSize : nat) : SimpleAnalysis :=
  let growth := (Z.of_nat afterSize - Z.of_nat beforeSize)%Z in
  let growthMB := (inject_Z growth / inject_Z (1024 * 1024))%Q in
  {| sa_totalGrowthMB := growthMB;
     sa_suspiciousGrowth := Qgtb (Qabs growthMB) 1;
     sa_confidence := 8 # 10;
     sa_leakCount := if Qgtb (Qabs growthMB) 1 then 1 else 0;
     sa_growthAdvice := Qgtb growthMB 1 |}.

Section SimpleServer.
Context `{!Host}.

(** [POST /api/snapshots/upload]; [iso] is [new Date().toISOString()].  The
    snapshot is stored before the file is written, so a refused write
    answers 500 with the snapshot in the table. *)
Definition upload (serviceName containerId phase snapshotData filename : option string)
    (iso : string) (e : Env) (s : SimpleServer) : SimpleServer * Response :=
  match given serviceName, given containerId, given phase, given snapshotData with
  | Some serviceName, Some containerId, Some phase, Some snapshotData =>
      let snapshotId :=
        phase +:+ "_" +:+ serviceName +:+ "_" +:+ show_number (inject_Z (now e)) in
      let name := match given filename with
                  | Some f => f
                  | None => snapshotId +:+ ".heapsnapshot"
                  end in
      let stored :=
        {| simple_snapshots :=
             Map_set snapshotId
               {| up_id := snapshotId; up_serviceName := serviceName;
                  up_containerId := containerId; up_phase := phase;
                  up_timestamp := iso; up_size := String.length snapshotData;
                  up_filename := name; up_data := snapshotData |}
               (simple_snapshots s);
           simple_comparisons := simple_comparisons s;
           simple_files := simple_files s |} in
      if fs_ok e then
        let filepath := path_join (path_join "./dashboard-snapshots" serviceName) name in
        ({| simple_snapshots := simple_snapshots stored;
            simple_comparisons := simple_comparisons stored;
            simple_files := <[filepath := snapshotData]> (simple_files stored) |},
         upload_ok snapshotId (String.length snapshotData))
      else (stored, server_error)
  | _, _, _, _ => (s, bad_request)
  end.

(** [POST /api/snapshots/compare]. *)
Definition compare (serviceName beforeSnapshotId afterSnapshotId : option string)
    (e : Env) (s : SimpleServer) : SimpleServer * Response :=
  match given serviceName, given beforeSnapshotId, given afterSnapshotId with
  | Some serviceName, Some beforeSnapshotId, Some afterSnapshotId =>
      let sessionId :=
        "comparison_" +:+ serviceName +:+ "_" +:+ show_number (inject_Z (now e)) in
      match Map_get beforeSnapshotId (simple_snapshots s),
            Map_get afterSnapshotId (simple_snapshots s) with
      | Some beforeSnapshot, Some afterSnapshot =>
          let analysis := compare_analysis (up_size beforeSnapshot) (up_size afterSnapshot) in
          ({| simple_snapshots := simple_snapshots s;
              simple_comparisons :=
                Map_set sessionId
                  {| cmp_sessionId := sessionId; cmp_serviceName := serviceName;
                     cmp_beforeSnapshotId := beforeSnapshotId;
                     cmp_afterSnapshotId := afterSnapshotId;
                     cmp_analysis := analysis; cmp_createdAt := now' e |}
                  (simple_comparisons s);
              simple_files := simple_files s |},
           compare_ok sessionId analysis)
      | beforeSnapshot, afterSnapshot =>
          (s, not_found (bool_decide (beforeSnapshot = None))
                        (bool_decide (afterSnapshot = None)))
      end
  | _, _, _ => (s, bad_request)
  end.

End SimpleServer.

(** ** Severity in the analyzers *)

Inductive LeakSeverity := leak_low | leak_medium | leak_high | leak_critical.

Definition severity_rank (v : LeakSeverity) : nat :=
  match v with
  | leak_low => 0
  | leak_medium => 1
  | leak_high => 2
  | leak_critical => 3
  end.

(** [MemlabHeapAnalyzer.calculateSeverity], on a size in bytes. *)
Definition memlab_calculateSeverity (retainedSize : number) : LeakSeverity :=
  let sizeMB := (retainedSize / inject_Z (1024 * 1024))%Q in
  if Qgtb sizeMB 50 then leak_critical
  else if Qgtb sizeMB 10 then leak_high
  else if Qgtb sizeMB 1 then leak_medium
  else leak_low.

(** A growth rate: a number, or [Infinity]. *)
Inductive Rate := Finite (q : number) | Infinity.

Definition rate_above (r : Rate) (bound : number) : bool :=
  match r with
  | Finite q => Qgtb q bound
  | Infinity => true
  end.

(** The growth rate [findLeakOffenders] computes for a type, from the
    retained size before and the change of size. *)
Definition growth_rate (retainedSizeBefore deltaSize : Z) : Rate :=
  if decide (0 < retainedSizeBefore)%Z then
    Finite (inject_Z deltaSize / inject_Z retainedSizeBefore)%Q
  else if decide (0 < deltaSize)%Z then Infinity
  else Finite 0.

(** [HeapSnapshotAnalyzer.calculateSeverity] ([deltaCount] is not read). *)
Definition calculateSeverity (deltaSize : Z) (deltaCount : Z) (growthRate : Rate)
    : LeakSeverity :=
  let sizeMB := (inject_Z (Z.abs deltaSize) / inject_Z (1024 * 1024))%Q in
  if Qgtb sizeMB 100 || rate_above growthRate 10 then leak_critical
  else if Qgtb sizeMB 50 || rate_above growthRate 5 then leak_high
  else if Qgtb sizeMB 10 || rate_above growthRate 2 then leak_medium
  else leak_low.

(** The server before any upload. *)
Definition empty_simple_server : SimpleServer :=
  {| simple_snapshots := []; simple_comparisons := []; simple_files := ∅ |}.

(** ** Where a snapshot's data and file come from *)

(** Among the inputs there is an announcement of snapshot [id] under
    [filename]. *)
Definition announced_as (inputs : list Input) (id filename : string) : Prop :=
  ∃ ws snapshot e,
    Message ws (snapshot_metadata snapshot) e ∈ inputs
    ∧ snap_id snapshot = id ∧ snap_filename snapshot = filename.

(** Among the inputs there is a snapshot-complete message naming [id], or an
    announcement of [id] that carries data. *)
Definition given_data (inputs : list Input) (id : string) : Prop :=
  (∃ ws e, Message ws (snapshot_complete id) e ∈ inputs)
  ∨ (∃ ws snapshot e,
       Message ws (snapshot_metadata snapshot) e ∈ inputs
       ∧ snap_id snapshot = id ∧ has_data (Some snapshot) = true).

(** A snapshot is complete as the specification words it: a completion
    message for it has been observed and its received-chunks equals its
    total-chunks. *)
Definition complete_as_specified `{!Host} (inputs : list Input) (id : string) : Prop :=
  (∃ ws e, Message ws (snapshot_complete id) e ∈ inputs)
  ∧ ∃ snap, snapshots (run initial inputs) !! id = Some snap
            ∧ snap_receivedChunks snap = snap_totalChunks snap.

(** An announcement that carries the snapshot's data. *)
Definition meta_with_data (id : string) (ph : Phase) (filename : string) (total : nat)
    (data : string) : SnapshotData :=
  {| snap_id := id; snap_serviceName := "svc-a"; snap_containerId := "c1";
     snap_phase := ph; snap_timestamp := "2024-01-01T00:00:00Z"; snap_size := 9;
     snap_filename := filename; snap_data := Some data; snap_chunks := None;
     snap_totalChunks := Some total; snap_receivedChunks := None |}.

(** Two snapshots, each completed after one chunk of three. *)
Definition early_completed_snapshots : list Input :=
  [ Message 1 (snapshot_metadata (meta "before_svc-a_1" before "b.heapsnapshot" 3)) env0;
    Message 1 (snapshot_chunk "before_svc-a_1" 0 3 "abc") env0;
    Message 1 (snapshot_complete "before_svc-a_1") env0;
    Message 1 (snapshot_metadata (meta "after_svc-a_2" after "a.heapsnapshot" 3)) env0;
    Message 1 (snapshot_chunk "after_svc-a_2" 0 3 "abc") env0;
    Message 1 (snapshot_complete "after_svc-a_2") env0 ].

(** Two snapshots announced with their data; no chunk and no completion
    message follows. *)
Definition announced_with_data : list Input :=
  [ Message 1 (snapshot_metadata
                 (meta_with_data "before_svc-a_1" before "b.heapsnapshot" 3 "abc")) env0;
    Message 1 (snapshot_metadata
                 (meta_with_data "after_svc-a_2" after "a.heapsnapshot" 3 "abcdef")) env0 ].

(** * Properties *)

(** ** Containers *)

Lemma slice_last_length {A} (n : nat) (l : list A) : length (slice_last n l) ≤ n.
Proof. unfold slice_last. rewrite length_drop. lia. Qed.

Lemma slice_last_short {A} (n : nat) (l : list A) : length l ≤ n → slice_last n l = l.
Proof.
  intros Hle. unfold slice_last.
  replace (length l - n) with 0 by lia. reflexivity.
Qed.

Lemma slice_last_cons {A} (n : nat) (x : A) (l : list A) :
  n ≤ length l → slice_last n (x :: l) = slice_last n l.
Proof.
  intros Hle. unfold slice_last.
  replace (length (x :: l) - n) with (S (length l - n)) by (cbn [length]; lia).
  reflexivity.
Qed.

Lemma slice_last_app {A} (n : nat) (l k : list A) :
  slice_last n (slice_last n l ++ k) = slice_last n (l ++ k).
Proof.
  unfold slice_last. rewrite !length_app, length_drop.
  destruct (decide (length l ≤ n)) as [Hle|Hgt].
  - replace (length l - n) with 0 by lia. cbn [drop]. f_equal. lia.
  - rewrite <- (drop_app_le l k (length l - n)) by lia.
    rewrite drop_drop. f_equal. lia.
Qed.

Lemma shift_length {A} (l : list A) : length (shift l) = length l - 1.
Proof. destruct l; cbn [shift tail length]; lia. Qed.

Lemma Map_get_set_eq {V} (k : string) (v : V) (m : list (string * V)) :
  Map_get k (Map_set k v m) = Some v.
Proof.
  induction m as [|[k' v'] m IH]; cbn.
  - rewrite decide_True; done.
  - destruct (decide (k' = k)) as [->|Hne]; cbn.
    + rewrite decide_True; done.
    + rewrite decide_False; done.
Qed.

Lemma Map_get_set_ne {V} (k j : string) (v : V) (m : list (string * V)) :
  k ≠ j → Map_get j (Map_set k v m) = Map_get j m.
Proof.
  intros Hne. induction m as [|[k' v'] m IH]; cbn.
  - rewrite decide_False; done.
  - destruct (decide (k' = k)) as [->|Hne']; cbn.
    + rewrite !decide_False; done.
    + destruct (decide (k' = j)); done.
Qed.

(** ** Frame lemmas: which handler writes which field *)

Section Frames.
Context `{!Host}.

Ltac handler_cases :=
  repeat match goal with
         | |- context [match ?x with _ => _ end] => destruct x eqn:?; cbn
         end.

Lemma metrics_handleLeakAlert m e s : metrics (handleLeakAlert m e s) = metrics s.
Proof. unfold handleLeakAlert, trimAlerts. cbn. handler_cases; reflexivity. Qed.

Lemma metrics_step_other s i :
  (∀ ws m e, i ≠ Message ws (metricsMsg m) e) →
  (∀ ws service t e, i ≠ Message ws (registration service t) e) →
  metrics (step s i) = metrics s.
Proof.
  intros Hm Hr. destruct i as [ws d|ws msg e|ws e|e|r o e]; cbn.
  - unfold on_connection. destruct d; reflexivity.
  - destruct msg; cbn; try reflexivity.
    + exfalso. eapply Hr. reflexivity.
    + exfalso. eapply Hm. reflexivity.
    + unfold handleSnapshot, trimAlerts. cbn. handler_cases; reflexivity.
    + unfold handleSnapshotChunk. handler_cases; reflexivity.
    + unfold handleSnapshotComplete. handler_cases; reflexivity.
    + unfold handleComparisonReady. cbn. handler_cases; reflexivity.
  - unfold on_close. cbn. destruct (close_scan _ _ _); reflexivity.
  - unfold on_sweep. destruct (sweep_scan _ _); reflexivity.
  - unfold analysisSettled, comparison_catch. handler_cases; reflexivity.
Qed.

End Frames.

(** ** The metric ring (C7) *)

Section MetricRing.
Context `{!Host}.

Lemma ring_handleMetrics ws m e s service :
  ring service (handleMetrics ws m e s) =
    if decide (m_service m = service) then
      let l := ring service s ++ [m] in
      if decide (1000 < length l) then shift l else l
    else ring service s.
Proof.
  unfold ring, handleMetrics.
  set (s1 := match Map_get _ _ with Some _ => _ | None => s end).
  assert (metrics s1 = metrics s) as Hs1
    by (subst s1; destruct (Map_get _ _); reflexivity).
  assert (∀ s2 : Dashboard,
    metrics (broadcastToClients (metricsUpdate m)
      (if m_leakDetected m then handleLeakAlert m e s2 else s2)) = metrics s2) as Hrest.
  { intros s2. cbn. destruct (m_leakDetected m); [apply metrics_handleLeakAlert | reflexivity]. }
  rewrite Hrest. cbn [metrics set_metrics]. rewrite Hs1.
  destruct (decide (m_service m = service)) as [->|Hne].
  - rewrite lookup_insert_eq. reflexivity.
  - rewrite lookup_insert_ne by done. reflexivity.
Qed.

Lemma ring_handleServiceRegistration ws name t s service :
  ring service (handleServiceRegistration ws name t s) = ring service s.
Proof.
  unfold ring, handleServiceRegistration. cbn.
  destruct (metrics s !! name) eqn:Hn; cbn; [reflexivity|].
  destruct (decide (name = service)) as [->|Hne].
  - rewrite lookup_insert_eq, Hn. reflexivity.
  - rewrite lookup_insert_ne by done. reflexivity.
Qed.

Lemma ring_step s i service :
  ring service (step s i) =
    match i with
    | Message ws (metricsMsg m) e =>
        if decide (m_service m = service) then
          let l := ring service s ++ [m] in
          if decide (1000 < length l) then shift l else l
        else ring service s
    | _ => ring service s
    end.
Proof.
  destruct i as [ws d|ws msg e|ws e|e|r o e];
    try (unfold ring; rewrite metrics_step_other by done; reflexivity).
  destruct msg;
    try (unfold ring; rewrite metrics_step_other by done; reflexivity).
  - apply ring_handleServiceRegistration.
  - apply ring_handleMetrics.
Qed.

Lemma ring_step_bound s i service :
  length (ring service s) ≤ 1000 → length (ring service (step s i)) ≤ 1000.
Proof.
  intros Hle. rewrite ring_step.
  destruct i as [ws d|ws msg e|ws e|e|r o e]; try done.
  destruct msg; try done.
  destruct (decide _); [|done]. cbv zeta.
  destruct (decide _) as [Hgt|Hgt].
  - rewrite shift_length, length_app. cbn [length]. lia.
  - lia.
Qed.

Lemma ring_step_slice s i service :
  length (ring service s) ≤ 1000 →
  ring service (step s i) = slice_last 1000 (ring service s ++ arrivals service [i]).
Proof.
  intros Hle. rewrite ring_step.
  destruct i as [ws d|ws msg e|ws e|e|r o e];
    try (cbn [arrivals]; rewrite app_nil_r, slice_last_short; done).
  destruct msg;
    try (cbn [arrivals]; rewrite app_nil_r, slice_last_short; done).
  cbn [arrivals]. destruct (decide (m_service m = service)) as [Heq|Hne].
  - cbv zeta. destruct (decide _) as [Hgt|Hgt].
    + rewrite length_app in Hgt. cbn [length] in Hgt.
      destruct (ring service s) as [|x l] eqn:Hr; [cbn in Hgt; lia|].
      cbn [length] in *. unfold shift. cbn [app tail].
      rewrite slice_last_cons by (rewrite length_app; cbn [length]; lia).
      rewrite slice_last_short by (rewrite length_app; cbn [length]; lia).
      reflexivity.
    + rewrite slice_last_short by lia. reflexivity.
  - rewrite app_nil_r, slice_last_short; done.
Qed.

Lemma arrivals_cons service i inputs :
  arrivals service (i :: inputs) = arrivals service [i] ++ arrivals service inputs.
Proof.
  destruct i as [ws d|ws msg e|ws e|e|r o e]; try reflexivity.
  destruct msg; try reflexivity.
  cbn. destruct (decide _); reflexivity.
Qed.

Lemma ring_run inputs : ∀ s service,
  length (ring service s) ≤ 1000 →
  ring service (run s inputs) = slice_last 1000 (ring service s ++ arrivals service inputs).
Proof.
  induction inputs as [|i inputs IH]; intros s service Hle.
  - cbn. rewrite app_nil_r, slice_last_short; done.
  - cbn [run foldl]. fold (run (step s i) inputs).
    rewrite IH by (apply ring_step_bound; done).
    rewrite ring_step_slice by done.
    rewrite slice_last_app, <- app_assoc, <- arrivals_cons. reflexivity.
Qed.

(** C7. In every execution from the empty server and for every service, the
    metric ring holds at most 1000 samples and is exactly the last 1000
    samples that arrived for the service, in arrival order; ingesting one
    more sample appends it, and when the ring already holds 1000 the oldest
    sample, and only that one, is dropped. *)
Theorem metric_ring_keeps_last_1000 (inputs : list Input) (ws : Conn) (m : MetricData) (e : Env) :
  let s := run initial inputs in
  let r := ring (m_service m) s in
  (∀ service,
     length (ring service s) ≤ 1000
     ∧ ring service s = slice_last 1000 (arrivals service inputs))
  ∧ ring (m_service m) (handleMetrics ws m e s)
      = (if decide (length r = 1000) then tail r else r) ++ [m].
Proof.
  cbv zeta.
  assert (∀ service,
    ring service (run initial inputs) = slice_last 1000 (arrivals service inputs)) as Hring.
  { intros service.
    assert (ring service initial = []) as Hinit by (unfold ring; cbn; by rewrite lookup_empty).
    rewrite ring_run by (rewrite Hinit; cbn [length]; lia).
    rewrite Hinit. reflexivity. }
  assert (∀ service, length (ring service (run initial inputs)) ≤ 1000) as Hlen.
  { intros service. rewrite Hring. apply slice_last_length. }
  split; [intros service; split; [apply Hlen | apply Hring]|].
  rewrite ring_handleMetrics, decide_True by done. cbv zeta.
  specialize (Hlen (m_service m)).
  rewrite length_app. cbn [length].
  destruct (decide (length (ring (m_service m) (run initial inputs)) = 1000)) as [Heq|Hne].
  - rewrite decide_True by lia. unfold shift.
    destruct (ring (m_service m) (run initial inputs)); [cbn in Heq; lia | reflexivity].
  - rewrite decide_False by lia. reflexivity.
Qed.

End MetricRing.

(** ** Registration of a known service (C10) *)

Section Registration.
Context `{!Host}.

(** C10. A registration message naming a service that is already registered
    replaces the stored record by a fresh one: [totalAlerts] is 0 and
    [registeredAt] (and [lastSeen]) is the message's timestamp, the status is
    connected and the connection is the sender's.  Every service's metric
    ring reads as before (an existing entry of the metrics map is not
    touched; only a missing one is created empty) and the global alert ring
    is unchanged. *)
Theorem reregistration_resets_record (s : Dashboard) (ws : Conn) (service : string)
    (timestamp : number) :
  is_Some (Map_get service (services s)) →
  let s' := handleServiceRegistration ws service timestamp s in
  Map_get service (services s')
    = Some {| svc_name := service; svc_status := connected; svc_connection := ws;
              svc_registeredAt := timestamp; svc_lastSeen := timestamp;
              svc_totalAlerts := 0 |}
  ∧ (∀ name, ring name s' = ring name s)
  ∧ metrics s' = match metrics s !! service with
                 | Some _ => metrics s
                 | None => <[service := []]> (metrics s)
                 end
  ∧ alerts s' = alerts s.
Proof.
  intros _. cbv zeta. split; [|split; [|split]].
  - unfold handleServiceRegistration. cbn.
    destruct (metrics s !! service); cbn; apply Map_get_set_eq.
  - intros name. apply ring_handleServiceRegistration.
  - unfold handleServiceRegistration. cbn.
    destruct (metrics s !! service); reflexivity.
  - unfold handleServiceRegistration. cbn.
    destruct (metrics s !! service); reflexivity.
Qed.

End Registration.

Lemma reregistration_resets_record_witness :
  is_Some (Map_get "svc-a" (services reregistration_state))
  ∧ svc_totalAlerts <$> Map_get "svc-a" (services reregistration_state) = Some 1
  ∧ svc_totalAlerts <$> Map_get "svc-a" (services
      (handleServiceRegistration 2 "svc-a" 2000000 reregistration_state))
    = Some 0.
Proof.
  assert (is_Some (Map_get "svc-a" (services reregistration_state))) as Hreg
    by (vm_compute; eauto).
  split; [exact Hreg|]. split; [reflexivity|].
  destruct (reregistration_resets_record reregistration_state 2 "svc-a"
              2000000 Hreg) as [Hrec _].
  rewrite Hrec. reflexivity.
Defined.

(** ** Chunk reception (C1) *)

Lemma array_get_set_eq (a : list (option string)) (i : nat) (v : string) :
  array_get (array_set a i v) i = Some v.
Proof.
  unfold array_get, array_set. destruct (decide (i < length a)) as [Hlt|Hge].
  - rewrite list_lookup_insert_eq by done. reflexivity.
  - rewrite lookup_app_r by lia.
    rewrite lookup_app_r by (rewrite length_replicate; lia).
    rewrite length_replicate. replace (i - length a - (i - length a)) with 0 by lia.
    reflexivity.
Qed.

Lemma array_get_set_ne (a : list (option string)) (i j : nat) (v : string) :
  j ≠ i → array_get (array_set a i v) j = array_get a j.
Proof.
  intros Hne. unfold array_get, array_set.
  destruct (decide (i < length a)) as [Hlt|Hge].
  - rewrite list_lookup_insert_ne by done. reflexivity.
  - destruct (decide (j < length a)) as [Hj|Hj].
    + rewrite lookup_app_l by done. reflexivity.
    + rewrite lookup_app_r by lia.
      rewrite (lookup_ge_None_2 a j) by lia.
      destruct (decide (j - length a < i - length a)) as [Hin|Hout].
      * rewrite lookup_app_l by (rewrite length_replicate; done).
        rewrite lookup_replicate_2 by done. reflexivity.
      * rewrite lookup_ge_None_2; [reflexivity|].
        rewrite length_app, length_replicate. cbn [length]. lia.
Qed.

(** C1, as the code has it.  A chunk message whose index was already received
    overwrites the data at that index, leaves every other index alone, and
    increments [receivedChunks] once more, as any chunk message does;
    [totalChunks] is not consulted, so nothing bounds the counter by it. *)
Theorem duplicate_chunk_overwrites_and_counts (s : Dashboard) (ws : Conn)
    (snapshotId : string) (chunkIndex totalChunks : nat) (data earlier : string)
    (snap : SnapshotData) (chunks : list (option string)) :
  snapshots s !! snapshotId = Some snap →
  snap_chunks snap = Some chunks →
  array_get chunks chunkIndex = Some earlier →
  ∃ snap',
    snapshots (handleSnapshotChunk ws snapshotId chunkIndex totalChunks data s) !! snapshotId
      = Some snap'
    ∧ snap_chunks snap' = Some (array_set chunks chunkIndex data)
    ∧ array_get (array_set chunks chunkIndex data) chunkIndex = Some data
    ∧ (∀ j, j ≠ chunkIndex →
         array_get (array_set chunks chunkIndex data) j = array_get chunks j)
    ∧ length (array_set chunks chunkIndex data) = length chunks
    ∧ snap_receivedChunks snap' = Some (default 0 (snap_receivedChunks snap) + 1)
    ∧ snap_totalChunks snap' = snap_totalChunks snap.
Proof.
  intros Hsnap Hchunks Hearlier.
  unfold handleSnapshotChunk. rewrite Hsnap. cbn.
  rewrite lookup_insert_eq. eexists. split; [reflexivity|].
  unfold init_chunks. rewrite Hchunks. cbn. rewrite Hchunks. cbn.
  repeat split.
  - apply array_get_set_eq.
  - intros j Hj. apply array_get_set_ne. done.
  - unfold array_set. rewrite decide_True.
    + apply length_insert.
    + unfold array_get in Hearlier.
      destruct (chunks !! chunkIndex) eqn:Hl; [|discriminate].
      eapply lookup_lt_Some. exact Hl.
Qed.

Lemma duplicate_chunk_overwrites_and_counts_witness :
  ∃ snap',
    snapshots (handleSnapshotChunk 1 "s1" 0 1 "b"
                 (run (H := node_host) initial (take 2 duplicate_chunk_inputs))) !! "s1"
      = Some snap'
    ∧ snap_chunks snap' = Some [Some "b"]
    ∧ snap_receivedChunks snap' = Some 2
    ∧ snap_totalChunks snap' = Some 1.
Proof.
  destruct (duplicate_chunk_overwrites_and_counts
              (run (H := node_host) initial (take 2 duplicate_chunk_inputs))
              1 "s1" 0 1 "b" "a"
              {| snap_id := "s1"; snap_serviceName := "svc-a"; snap_containerId := "c1";
                 snap_phase := before; snap_timestamp := "2024-01-01T00:00:00Z";
                 snap_size := 9; snap_filename := "one.heapsnapshot"; snap_data := None;
                 snap_chunks := Some [Some "a"]; snap_totalChunks := Some 1;
                 snap_receivedChunks := Some 1 |}
              [Some "a"])
    as (snap' & Hs & Hc & _ & _ & _ & Hr & Ht).
  - vm_compute. reflexivity.
  - reflexivity.
  - reflexivity.
  - exists snap'. repeat split; assumption.
Defined.

(** The claim fails on the code: the same index sent twice to a snapshot
    announced with one chunk is counted twice, and the counter passes
    [totalChunks]. *)
Lemma duplicate_chunk_counted_twice :
  (snap_receivedChunks <$> snapshots (run (H := node_host) initial
      (take 2 duplicate_chunk_inputs)) !! "s1") = Some (Some 1)
  ∧ (snap_receivedChunks <$> snapshots (run (H := node_host) initial
      duplicate_chunk_inputs) !! "s1") = Some (Some 2)
  ∧ ¬ received_le_total (run (H := node_host) initial duplicate_chunk_inputs).
Proof.
  split; [vm_compute; reflexivity|]. split; [vm_compute; reflexivity|].
  intros Hle.
  specialize (Hle "s1"
    {| snap_id := "s1"; snap_serviceName := "svc-a"; snap_containerId := "c1";
       snap_phase := before; snap_timestamp := "2024-01-01T00:00:00Z";
       snap_size := 9; snap_filename := "one.heapsnapshot"; snap_data := None;
       snap_chunks := Some [Some "b"]; snap_totalChunks := Some 1;
       snap_receivedChunks := Some 2 |} 2 1).
  assert (2 ≤ 1) as Habs; [|lia].
  apply Hle; [vm_compute|..]; reflexivity.
Qed.

(** ** Where files and completion frames come from *)

Lemma announced_as_snoc (inputs : list Input) (i : Input) (id filename : string) :
  announced_as inputs id filename → announced_as (inputs ++ [i]) id filename.
Proof.
  intros (ws & snapshot & e & Hin & Hid & Hf). exists ws, snapshot, e.
  split; [|done]. apply elem_of_app. by left.
Qed.

Lemma given_data_snoc (inputs : list Input) (i : Input) (id : string) :
  given_data inputs id → given_data (inputs ++ [i]) id.
Proof.
  intros [(ws & e & Hin)|(ws & snapshot & e & Hin & Hid & Hd)].
  - left. exists ws, e. apply elem_of_app. by left.
  - right. exists ws, snapshot, e. split; [|done]. apply elem_of_app. by left.
Qed.




Section Provenance.
Context `{!Host}.

Ltac handler_cases :=
  repeat match goal with
         | |- context [match ?x with _ => _ end] => destruct x eqn:?; cbn
         end.



Lemma snapshots_step_other (s : Dashboard) (i : Input) :
  match i with
  | Message _ (snapshot_metadata _) _ | Message _ (snapshot_chunk _ _ _ _) _
  | Message _ (snapshot_complete _) _ => False
  | _ => True
  end →
  snapshots (step s i) = snapshots s.
Proof.
  intros Hi. destruct i as [ws d|ws msg e|ws e|e|r o e]; cbn [step].
  - unfold on_connection. destruct d; reflexivity.
  - destruct msg; cbn [handleAgentMessage]; try done.
    + unfold handleServiceRegistration. cbn. handler_cases; reflexivity.
    + unfold handleMetrics, handleLeakAlert, trimAlerts. cbn. handler_cases; reflexivity.
    + unfold handleSnapshot, trimAlerts. cbn. handler_cases; reflexivity.
    + unfold handleComparisonReady. cbn. handler_cases; reflexivity.
  - unfold on_close. cbn. destruct (close_scan _ _ _); reflexivity.
  - unfold on_sweep. destruct (sweep_scan _ _); reflexivity.
  - unfold analysisSettled, comparison_catch. handler_cases; reflexivity.
Qed.

Lemma run_snoc (s : Dashboard) (inputs : list Input) (i : Input) :
  run s (inputs ++ [i]) = step (run s inputs) i.
Proof. unfold run. rewrite foldl_app. reflexivity. Qed.

(** Every stored snapshot sits under its own id, keeps the file name of an
    announcement for that id, and has data only when the id was given
    data. *)
Lemma stored_snapshot_provenance (inputs : list Input) : ∀ id snap,
  snapshots (run initial inputs) !! id = Some snap →
  snap_id snap = id
  ∧ announced_as inputs id (snap_filename snap)
  ∧ (has_data (Some snap) = true → given_data inputs id).
Proof.
  induction inputs as [|i inputs IH] using rev_ind; intros id snap Hl.
  - cbn in Hl. by rewrite lookup_empty in Hl.
  - rewrite run_snoc in Hl.
    assert (snapshots (step (run initial inputs) i) = snapshots (run initial inputs) →
      snap_id snap = id
      ∧ announced_as (inputs ++ [i]) id (snap_filename snap)
      ∧ (has_data (Some snap) = true → given_data (inputs ++ [i]) id)) as Hsame.
    { intros Heq. rewrite Heq in Hl. destruct (IH _ _ Hl) as (Hid & Ha & Hd).
      split; [done|]. split; [by apply announced_as_snoc|].
      intros Hdata. by apply given_data_snoc, Hd. }
    destruct i as [ws d|ws msg e|ws e|e|r o e];
      try (apply Hsame, snapshots_step_other; done).
    destruct msg as [| | | |announced|snapshotId chunkIndex totalChunks data|snapshotId| |];
      try (apply Hsame, snapshots_step_other; done); cbn [step handleAgentMessage] in *.
    + unfold handleSnapshotMetadata in Hl. cbn in Hl.
      apply lookup_insert_Some in Hl as [[<- <-]|[_ Hl]].
      * cbn. split; [done|]. split.
        -- exists ws, announced, e. split; [|done]. apply elem_of_app. right. left.
        -- intros Hdata. right. exists ws, announced, e.
           split; [|done]. apply elem_of_app. right. left.
      * destruct (IH _ _ Hl) as (Hid & Ha & Hd).
        split; [done|]. split; [by apply announced_as_snoc|].
        intros Hdata. by apply given_data_snoc, Hd.
    + unfold handleSnapshotChunk in *.
      destruct (snapshots (run initial inputs) !! snapshotId) as [stored|] eqn:Hs;
        [|by apply Hsame].
      cbn in Hl. apply lookup_insert_Some in Hl as [[<- <-]|[_ Hl]].
      * destruct (IH _ _ Hs) as (Hid & Ha & Hd).
        assert (snap_id (init_chunks totalChunks stored) = snap_id stored
                ∧ snap_filename (init_chunks totalChunks stored) = snap_filename stored
                ∧ snap_data (init_chunks totalChunks stored) = snap_data stored)
          as (Hi1 & Hi2 & Hi3)
          by (unfold init_chunks; destruct (snap_chunks stored); done).
        cbn. rewrite Hi1, Hi2. split; [done|]. split; [by apply announced_as_snoc|].
        unfold has_data. cbn. rewrite Hi3. intros Hdata. by apply given_data_snoc, Hd.
      * destruct (IH _ _ Hl) as (Hid & Ha & Hd).
        split; [done|]. split; [by apply announced_as_snoc|].
        intros Hdata. by apply given_data_snoc, Hd.
    + unfold handleSnapshotComplete in *.
      destruct (snapshots (run initial inputs) !! snapshotId) as [stored|] eqn:Hs;
        [|by apply Hsame].
      destruct (snap_chunks stored) as [chunks|] eqn:Hchunks; [|by apply Hsame].
      cbv zeta in Hl.
      match type of Hl with
      | context [if fs_ok e then broadcastToClients ?ev (set_files ?f ?t) else ?t] =>
          assert (snapshots (if fs_ok e then broadcastToClients ev (set_files f t) else t)
                  = snapshots t) as Hfs by (destruct (fs_ok e); reflexivity)
      end.
      rewrite Hfs in Hl. cbn in Hl.
      apply lookup_insert_Some in Hl as [[<- <-]|[_ Hl]].
      * destruct (IH _ _ Hs) as (Hid & Ha & Hd).
        cbn. split; [done|]. split; [by apply announced_as_snoc|].
        intros _. left. exists ws, e. apply elem_of_app. right. left.
      * destruct (IH _ _ Hl) as (Hid & Ha & Hd).
        split; [done|]. split; [by apply announced_as_snoc|].
        intros Hdata. by apply given_data_snoc, Hd.
Qed.



End Provenance.

(** ** Completion (C2) *)

Section Completion.
Context `{!Host}.



End Completion.



(** ** Reassembly in any arrival order (C3) *)

Lemma received_untouched cs : ∀ a i,
  i ∉ cs.*1 → array_get (received a cs) i = array_get a i.
Proof.
  induction cs as [|[j d] cs IH]; intros a i Hi; [reflexivity|].
  cbn in Hi. apply not_elem_of_cons in Hi as [Hne Hi].
  cbn. fold (received (array_set a j d) cs).
  rewrite IH by done. apply array_get_set_ne. done.
Qed.

Lemma received_written cs : ∀ a i d,
  NoDup cs.*1 → (i, d) ∈ cs → array_get (received a cs) i = Some d.
Proof.
  induction cs as [|[j d'] cs IH]; intros a i d Hnd Hin.
  - by apply elem_of_nil in Hin.
  - cbn in Hnd. apply NoDup_cons in Hnd as [Hj Hnd].
    cbn. fold (received (array_set a j d') cs).
    apply elem_of_cons in Hin as [Heq|Hin].
    + injection Heq as -> ->.
      rewrite received_untouched by done. apply array_get_set_eq.
    + apply IH; done.
Qed.

Lemma indexed_fst (payloads : list string) : (indexed payloads).*1 = seq 0 (length payloads).
Proof.
  unfold indexed. rewrite fmap_imap.
  rewrite (imap_ext _ (λ j _, id j)) by done.
  rewrite imap_seq_0. apply list_fmap_id.
Qed.

Lemma elem_of_indexed (payloads : list string) i d :
  (i, d) ∈ indexed payloads ↔ payloads !! i = Some d.
Proof.
  unfold indexed. rewrite elem_of_lookup_imap. split.
  - intros (j & y & Heq & Hl). injection Heq as -> ->. done.
  - intros Hl. eauto.
Qed.

Lemma join_of_get (a : list (option string)) : ∀ payloads,
  (∀ i, array_get a i = payloads !! i) → join a = concat_strings payloads.
Proof.
  induction a as [|o a IH]; intros payloads Hget.
  - destruct payloads as [|p ps]; [reflexivity|]. specialize (Hget 0). discriminate.
  - pose proof (Hget 0) as H0. cbn in H0. destruct o as [v|].
    + destruct payloads as [|p ps]; [discriminate|]. cbn in H0. injection H0 as ->.
      cbn. f_equal. apply IH. intros i. apply (Hget (S i)).
    + destruct payloads as [|p ps]; [|discriminate].
      cbn. apply (IH []). intros i. apply (Hget (S i)).
Qed.

(** The chunk table filled by any arrangement of the indexed payloads joins
    to their concatenation. *)
Lemma join_received_permutation (payloads : list string) (msgs : list (nat * string)) :
  msgs ≡ₚ indexed payloads → join (received [] msgs) = concat_strings payloads.
Proof.
  intros Hperm. apply join_of_get. intros i.
  assert (NoDup msgs.*1) as Hnd.
  { rewrite Hperm, indexed_fst. apply NoDup_seq. }
  destruct (payloads !! i) as [d|] eqn:Hi.
  - apply received_written; [done|]. rewrite Hperm. by apply elem_of_indexed.
  - rewrite received_untouched; [reflexivity|].
    intros Hin. apply list_elem_of_fmap in Hin as ([j d] & -> & Hin).
    rewrite Hperm in Hin. apply elem_of_indexed in Hin. cbn in Hi. congruence.
Qed.

Section Reassembly.
Context `{!Host}.

Lemma run_app (s : Dashboard) (xs ys : list Input) : run s (xs ++ ys) = run (run s xs) ys.
Proof. apply foldl_app. Qed.

Lemma run_chunk_inputs ws snapshotId totalChunks e cs : ∀ s snap chunks,
  snapshots s !! snapshotId = Some snap →
  snap_chunks snap = Some chunks →
  ∃ snap',
    snapshots (run s (chunk_inputs ws snapshotId totalChunks e cs)) !! snapshotId = Some snap'
    ∧ snap_chunks snap' = Some (received chunks cs)
    ∧ snap_filename snap' = snap_filename snap.
Proof.
  induction cs as [|[i d] cs IH]; intros s snap chunks Hsnap Hchunks.
  - exists snap. done.
  - cbn [chunk_inputs fmap list_fmap run foldl step handleAgentMessage fst snd].
    fold (chunk_inputs ws snapshotId totalChunks e cs).
    fold (run (handleSnapshotChunk ws snapshotId i totalChunks d s)
            (chunk_inputs ws snapshotId totalChunks e cs)).
    edestruct (IH (handleSnapshotChunk ws snapshotId i totalChunks d s))
      as (snap' & Hs' & Hc' & Hf').
    + unfold handleSnapshotChunk. rewrite Hsnap. cbn. apply lookup_insert_eq.
    + unfold init_chunks. rewrite Hchunks. cbn. rewrite Hchunks. reflexivity.
    + exists snap'. split; [exact Hs'|]. split; [exact Hc'|].
      rewrite Hf'. unfold init_chunks. rewrite Hchunks. reflexivity.
Qed.

(** C3. From any state, announcing a snapshot, sending the chunks of
    [payloads] (chunk [i] carries [payloads !! i]) in any order and then the
    completion message leaves, under the snapshots directory and the
    announced file name, a file that is the concatenation of the payloads in
    index order, whatever the arrival order was (when the file system takes
    the write). *)
Theorem any_chunk_order_persists_concatenation (s : Dashboard) (ws : Conn)
    (snapshot : SnapshotData) (payloads : list string) (msgs : list (nat * string))
    (e e' : Env) :
  msgs ≡ₚ indexed payloads →
  fs_ok e' = true →
  files (run s (Message ws (snapshot_metadata snapshot) e
                :: chunk_inputs ws (snap_id snapshot) (length payloads) e msgs
                ++ [Message ws (snapshot_complete (snap_id snapshot)) e']))
    !! path_join snapshotsDir (snap_filename snapshot)
  = Some (concat_strings payloads).
Proof.
  intros Hperm Hfs.
  cbn [run foldl step handleAgentMessage].
  fold (run (handleSnapshotMetadata ws snapshot s)
          (chunk_inputs ws (snap_id snapshot) (length payloads) e msgs
           ++ [Message ws (snapshot_complete (snap_id snapshot)) e'])).
  rewrite run_app.
  edestruct (run_chunk_inputs ws (snap_id snapshot) (length payloads) e msgs
               (handleSnapshotMetadata ws snapshot s)) as (snap' & Hs' & Hc' & Hf').
  - unfold handleSnapshotMetadata. cbn. apply lookup_insert_eq.
  - reflexivity.
  - cbn [run foldl step handleAgentMessage].
    unfold handleSnapshotComplete. rewrite Hs', Hc', Hfs. cbn.
    rewrite Hf'. cbn. rewrite lookup_insert_eq.
    f_equal. apply join_received_permutation. exact Hperm.
Qed.

End Reassembly.

Lemma any_chunk_order_persists_concatenation_witness :
  [(0, "abc"); (2, "ghi"); (1, "def")] ≡ₚ indexed ["abc"; "def"; "ghi"]
  ∧ files (run (H := node_host) initial
             (Message 1 (snapshot_metadata (meta "before_svc-a_1" before "b.heapsnapshot" 3)) env0
              :: chunk_inputs 1 "before_svc-a_1" 3 env0 [(0, "abc"); (2, "ghi"); (1, "def")]
              ++ [Message 1 (snapshot_complete "before_svc-a_1") env0]))
      !! "dashboard-snapshots/b.heapsnapshot" = Some "abcdefghi".
Proof.
  assert ([(0, "abc"); (2, "ghi"); (1, "def")] ≡ₚ indexed ["abc"; "def"; "ghi"]) as Hperm.
  { cbn. apply perm_skip. apply perm_swap. }
  split; [exact Hperm|].
  apply (any_chunk_order_persists_concatenation (H := node_host) initial 1
           (meta "before_svc-a_1" before "b.heapsnapshot" 3) ["abc"; "def"; "ghi"]
           [(0, "abc"); (2, "ghi"); (1, "def")] env0 env0 Hperm).
  reflexivity.
Defined.

(** ** Comparison asked for too early (C5) *)

Section Pending.
Context `{!Host}.

(** What the handler tests is the data, not completeness: when both
    snapshots have data the comparison starts. *)
Lemma comparison_starts_on_data (s : Dashboard) (ws : Conn)
    (serviceName containerId beforeSnapshotId afterSnapshotId : string)
    (timeframe : number) (timestamp : string) (e : Env) :
  has_data (snapshots s !! beforeSnapshotId) && has_data (snapshots s !! afterSnapshotId)
    = true →
  let s' := handleComparisonReady ws serviceName containerId beforeSnapshotId
              afterSnapshotId timeframe timestamp e s in
  published s' = published s ++
    [comparisonStarted
       ("comparison_" +:+ serviceName +:+ "_" +:+ show_number (inject_Z (now e)))
       serviceName beforeSnapshotId afterSnapshotId]
  ∧ awaiting s' = awaiting s ++ [length (sessionObjects s)].
Proof.
  intros Hdata. cbv zeta. unfold handleComparisonReady. cbn. rewrite Hdata. done.
Qed.

(** A snapshot that was given no data has none: no snapshot-complete
    message named it and no announcement carried data for it. *)
Lemma no_data_unless_given (inputs : list Input) (id : string) :
  ¬ given_data inputs id → has_data (snapshots (run initial inputs) !! id) = false.
Proof.
  intros Hnot. destruct (snapshots (run initial inputs) !! id) as [snap|] eqn:Hl; [|done].
  destruct (has_data (Some snap)) eqn:Hd; [|done].
  exfalso. apply Hnot. by eapply stored_snapshot_provenance.
Qed.

(** C5, as the code has it.  The handler does not ask whether a snapshot is
    complete, it asks whether it has data.  When at least one of the two
    snapshots named by a comparison-ready message has no data, the handler
    broadcasts exactly one frame, a [comparisonPending] whose flags tell
    which of the two is missing (at least one flag is set), the session it
    created is registered with status [waiting] (its only status write), no
    other session object changes, and no handler is left waiting on the
    analyzer.  In every execution a snapshot that no snapshot-complete
    message has named and no announcement has given data has no data, so a
    comparison that names it is answered that way.  When both snapshots have
    data, in any state, the comparison starts instead. *)
Theorem incomplete_pair_is_pending (s : Dashboard) (ws : Conn)
    (serviceName containerId beforeSnapshotId afterSnapshotId : string)
    (timeframe : number) (timestamp : string) (e : Env) :
  has_data (snapshots s !! beforeSnapshotId) && has_data (snapshots s !! afterSnapshotId)
    = false →
  let s' := handleComparisonReady ws serviceName containerId beforeSnapshotId
              afterSnapshotId timeframe timestamp e s in
  let sessionId := "comparison_" +:+ serviceName +:+ "_" +:+ show_number (inject_Z (now e)) in
  let r := length (sessionObjects s) in
  let missingBefore := negb (has_data (snapshots s !! beforeSnapshotId)) in
  let missingAfter := negb (has_data (snapshots s !! afterSnapshotId)) in
  published s' = published s ++
    [comparisonPending sessionId serviceName missingBefore missingAfter]
  ∧ missingBefore || missingAfter = true
  ∧ comparisonSessions s' !! sessionId = Some r
  ∧ (sess_status <$> sessionObjects s' !! r) = Some waiting
  ∧ statusWrites s' = statusWrites s ++ [(r, waiting)]
  ∧ (∀ k, k ≠ r → sessionObjects s' !! k = sessionObjects s !! k)
  ∧ awaiting s' = awaiting s
  ∧ (∀ (inputs : list Input) (id : string),
       ¬ given_data inputs id → has_data (snapshots (run initial inputs) !! id) = false)
  ∧ (∀ (t : Dashboard),
       has_data (snapshots t !! beforeSnapshotId) && has_data (snapshots t !! afterSnapshotId)
         = true →
       published (handleComparisonReady ws serviceName containerId beforeSnapshotId
                    afterSnapshotId timeframe timestamp e t)
       = published t ++
           [comparisonStarted sessionId serviceName beforeSnapshotId afterSnapshotId]
       ∧ awaiting (handleComparisonReady ws serviceName containerId beforeSnapshotId
                     afterSnapshotId timeframe timestamp e t)
         = awaiting t ++ [length (sessionObjects t)]).
Proof.
  intros Hmissing. cbv zeta.
  split; [|split; [|split; [|split; [|split; [|split; [|split; [|split]]]]]]].
  - unfold handleComparisonReady. cbn. rewrite Hmissing. reflexivity.
  - destruct (has_data (snapshots s !! beforeSnapshotId)),
             (has_data (snapshots s !! afterSnapshotId)); done.
  - unfold handleComparisonReady. cbn. rewrite Hmissing. cbn. apply lookup_insert_eq.
  - unfold handleComparisonReady. cbn. rewrite Hmissing. cbn.
    rewrite lookup_app_r by lia. rewrite Nat.sub_diag. reflexivity.
  - unfold handleComparisonReady. cbn. rewrite Hmissing. reflexivity.
  - unfold handleComparisonReady. cbn. rewrite Hmissing. cbn.
    intros k Hk. destruct (decide (k < length (sessionObjects s))) as [Hlt|Hge].
    + rewrite lookup_app_l by done. reflexivity.
    + rewrite !lookup_ge_None_2; [reflexivity|lia|].
      rewrite length_app. cbn [length]. lia.
  - unfold handleComparisonReady. cbn. rewrite Hmissing. reflexivity.
  - apply no_data_unless_given.
  - intros t Hdata. by apply comparison_starts_on_data.
Qed.

End Pending.

Lemma incomplete_pair_is_pending_witness :
  has_data (snapshots pending_state !! "before_svc-a_1")
    && has_data (snapshots pending_state !! "after_svc-a_2") = false
  ∧ published (step (H := node_host) pending_state compare_message)
    = published pending_state ++
        [comparisonPending "comparison_svc-a_1700000000000" "svc-a" false true]
  ∧ (sess_status <$> sessionObjects (step (H := node_host) pending_state compare_message) !! 0)
    = Some waiting
  ∧ awaiting (step (H := node_host) pending_state compare_message) = [].
Proof.
  assert (has_data (snapshots pending_state !! "before_svc-a_1")
          && has_data (snapshots pending_state !! "after_svc-a_2") = false) as Hmissing
    by (vm_compute; reflexivity).
  split; [exact Hmissing|].
  destruct (incomplete_pair_is_pending (H := node_host) pending_state 1 "svc-a" "c1"
              "before_svc-a_1" "after_svc-a_2" 60 "2024-01-01T00:01:00Z" env0 Hmissing)
    as (Hpub & _ & _ & Hst & _ & _ & Haw & _).
  split; [|split].
  - etransitivity; [exact Hpub|]. vm_compute. reflexivity.
  - exact Hst.
  - etransitivity; [exact Haw|]. vm_compute. reflexivity.
Defined.

(** The claim fails on the code.  Two snapshots completed after one chunk of
    three each are not complete ([receivedChunks] is 1 of 3), and two
    snapshots announced with their data never saw a completion message; in
    both executions the comparison-ready message broadcasts
    [comparisonStarted] and no [comparisonPending], the session goes to
    [analyzing] and the handler waits on the analyzer. *)
Lemma incomplete_snapshots_start_analysis :
  (¬ complete_as_specified (H := node_host) early_completed_snapshots "before_svc-a_1"
   ∧ ¬ complete_as_specified (H := node_host) early_completed_snapshots "after_svc-a_2"
   ∧ drop 6 (published (run (H := node_host) initial
                          (early_completed_snapshots ++ [compare_message])))
     = [comparisonStarted "comparison_svc-a_1700000000000" "svc-a"
          "before_svc-a_1" "after_svc-a_2"]
   ∧ (sess_status <$> sessionObjects (run (H := node_host) initial
        (early_completed_snapshots ++ [compare_message])) !! 0) = Some analyzing
   ∧ awaiting (run (H := node_host) initial (early_completed_snapshots ++ [compare_message]))
     = [0])
  ∧ (¬ complete_as_specified (H := node_host) announced_with_data "before_svc-a_1"
     ∧ ¬ complete_as_specified (H := node_host) announced_with_data "after_svc-a_2"
     ∧ published (run (H := node_host) initial (announced_with_data ++ [compare_message]))
       = [ snapshotStarted "before_svc-a_1" "svc-a" before "2024-01-01T00:00:00Z" 9;
           snapshotStarted "after_svc-a_2" "svc-a" after "2024-01-01T00:00:00Z" 9;
           comparisonStarted "comparison_svc-a_1700000000000" "svc-a"
             "before_svc-a_1" "after_svc-a_2" ]
     ∧ (sess_status <$> sessionObjects (run (H := node_host) initial
          (announced_with_data ++ [compare_message])) !! 0) = Some analyzing
     ∧ awaiting (run (H := node_host) initial (announced_with_data ++ [compare_message]))
       = [0]).
Proof.
  assert (∀ id, id = "before_svc-a_1" ∨ id = "after_svc-a_2" →
            ¬ complete_as_specified (H := node_host) early_completed_snapshots id) as Hearly.
  { intros id Hid [_ (snap & Hl & Heq)].
    destruct Hid as [-> | ->]; vm_compute in Hl; injection Hl as <-; discriminate Heq. }
  assert (∀ id, ¬ complete_as_specified (H := node_host) announced_with_data id) as Hnever.
  { intros id [(ws & e & Hin) _]. unfold announced_with_data in Hin.
    repeat (apply elem_of_cons in Hin as [Hin|Hin]; [discriminate Hin|]).
    by apply elem_of_nil in Hin. }
  split.
  - split; [apply Hearly; by left|]. split; [apply Hearly; by right|].
    repeat split; vm_compute; reflexivity.
  - split; [apply Hnever|]. split; [apply Hnever|].
    repeat split; vm_compute; reflexivity.
Qed.

(** ** The alert ring (C6) *)

Lemma trimAlerts_bound (s : Dashboard) : length (alerts (trimAlerts s)) ≤ 100.
Proof.
  unfold trimAlerts. destruct (decide _) as [Hgt|Hle]; cbn.
  - apply slice_last_length.
  - lia.
Qed.

(** The two handlers that trim after pushing keep the bound, from any
    state. *)
Lemma handleSnapshot_bound `{!Host} ws service filename filepath timestamp e (s : Dashboard) :
  length (alerts (handleSnapshot ws service filename filepath timestamp e s)) ≤ 100.
Proof. unfold handleSnapshot. cbn [alerts broadcastToClients set_published]. apply trimAlerts_bound. Qed.

Lemma handleLeakAlert_bound `{!Host} m e (s : Dashboard) :
  length (alerts (handleLeakAlert m e s)) ≤ 100.
Proof. unfold handleLeakAlert. cbn [alerts broadcastToClients set_published]. apply trimAlerts_bound. Qed.

(** C6, at the input where the code leaves the bound.  One hundred snapshot
    notifications fill the ring to 100; the leak alert pushed when the
    comparison that follows is found suspicious is not followed by a trim,
    and the ring holds 101 alerts. *)
Theorem comparison_alert_overflows_ring :
  length (alerts (run (H := node_host) initial (take 100 full_ring_inputs))) = 100
  ∧ length (alerts (run (H := node_host) initial full_ring_inputs)) = 101.
Proof. split; vm_compute; reflexivity. Qed.

(** ** Closing a shared socket (C8) *)



(** C8, at the input where the code stops short.  A socket that registered
    two services closes: the scan stops at the first one, and the second
    stays connected, still referring to the closed socket, with no
    [serviceUpdate] for it. *)
Theorem close_marks_first_service_only :
  (svc_status <$> Map_get "svc-a" (services (run (H := node_host) initial shared_socket_inputs)))
    = Some disconnected
  ∧ Map_get "svc-b" (services (run (H := node_host) initial shared_socket_inputs))
    = Some {| svc_name := "svc-b"; svc_status := connected; svc_connection := 7;
              svc_registeredAt := 1000001; svc_lastSeen := 1000001;
              svc_totalAlerts := 0 |}
  ∧ published (run (H := node_host) initial shared_socket_inputs)
    = [ serviceRegistered "svc-a" 1000000; serviceRegistered "svc-b" 1000001;
        serviceUpdate "svc-a" disconnected ].
Proof. repeat split; vm_compute; reflexivity. Qed.

(** ** Alert identifiers (C9) *)

(** C9, at the input where the identifiers go down.  A snapshot notification
    takes its identifier from the clock, the leak alert of the comparison
    that follows takes it from [alertCounter], which starts at 1: the ring
    holds the identifiers 1700000000000 and 1, in that order. *)
Theorem comparison_alert_id_below_earlier_id :
  alert_ids (run (H := node_host) initial mixed_alert_inputs) = [1700000000000%Q; 1%Q]
  ∧ strictly_increasing (alert_ids (run (H := node_host) initial mixed_alert_inputs)) = false.
Proof. split; vm_compute; reflexivity. Qed.

(** ** Session status (C4) *)

(** C4, at the input where a terminal status is overwritten.  Both snapshots
    have data and the primary analyzer's report is suspicious; its summary
    has no [totalGrowthMB], so building the alert throws after
    [status = 'completed'] and the [catch] block sets [failed]: the session
    goes waiting, analyzing, completed, failed, and subscribers get
    [comparisonCompleted] and then [comparisonFailed] for it. *)
Theorem completed_session_overwritten_by_failed :
  status_trace 0 (run (H := node_host) initial memlab_comparison_inputs)
    = [waiting; analyzing; completed; failed]
  ∧ (sess_status <$> sessionObjects (run (H := node_host) initial
       (two_snapshots ++ [compare_message])) !! 0) = Some analyzing
  ∧ (sess_status <$> sessionObjects (run (H := node_host) initial memlab_comparison_inputs) !! 0)
    = Some failed
  ∧ drop 6 (published (run (H := node_host) initial memlab_comparison_inputs))
    = [ comparisonStarted "comparison_svc-a_1700000000000" "svc-a"
          "before_svc-a_1" "after_svc-a_2";
        comparisonCompleted "comparison_svc-a_1700000000000" "svc-a" memlab_report;
        comparisonFailed "comparison_svc-a_1700000000000" "svc-a" toFixed_of_undefined ].
Proof. repeat split; vm_compute; reflexivity. Qed.

(** What the rest of an execution can do to a session: only the handler
    suspended on it writes to it. *)
Section Sessions.
Context `{!Host}.

Ltac handler_cases :=
  repeat match goal with
         | |- context [match ?x with _ => _ end] => destruct x eqn:?; cbn
         end.

Lemma step_keeps_sessions (s : Dashboard) (i : Input) :
  match i with
  | Message _ (comparison_ready _ _ _ _ _ _) _ | AnalysisSettled _ _ _ => False
  | _ => True
  end →
  sessionObjects (step s i) = sessionObjects s
  ∧ statusWrites (step s i) = statusWrites s
  ∧ awaiting (step s i) = awaiting s.
Proof.
  intros Hi. destruct i as [ws d|ws msg e|ws e|e|r o e]; cbn; try done.
  - unfold on_connection. destruct d; done.
  - destruct msg; cbn; try done.
    + unfold handleServiceRegistration. cbn. handler_cases; done.
    + unfold handleMetrics, handleLeakAlert, trimAlerts. cbn. handler_cases; done.
    + unfold handleSnapshot, trimAlerts. cbn. handler_cases; done.
    + unfold handleSnapshotChunk. handler_cases; done.
    + unfold handleSnapshotComplete. handler_cases; done.
  - unfold on_close. cbn. destruct (close_scan _ _ _); done.
  - unfold on_sweep. destruct (sweep_scan _ _); done.
Qed.

Lemma status_trace_app (r : nat) (s : Dashboard) (ws : list (nat * SessionStatus)) :
  (filter (λ w, w.1 = r) (statusWrites s ++ ws)).*2
  = status_trace r s ++ (filter (λ w, w.1 = r) ws).*2.
Proof. unfold status_trace. rewrite filter_app, fmap_app. reflexivity. Qed.

Lemma status_trace_fresh (p : bool) (s : Dashboard) :
  sessions_inv p s → status_trace (length (sessionObjects s)) s = [].
Proof.
  intros Hinv. unfold status_trace.
  destruct (filter _ (statusWrites s)) as [|[r st] l] eqn:Hf; [reflexivity|].
  assert ((r, st) ∈ filter (λ w, w.1 = length (sessionObjects s)) (statusWrites s)) as Hin
    by (rewrite Hf; left).
  apply list_elem_of_filter in Hin as [Hr Hin]. cbn in Hr.
  apply (inv_writes _ _ Hinv) in Hin. lia.
Qed.

Lemma writes_of_one_session (r k : nat) (tr : list SessionStatus) :
  (filter (λ w : nat * SessionStatus, w.1 = k) ((λ st, (r, st)) <$> tr)).*2
  = if decide (r = k) then tr else [].
Proof.
  induction tr as [|st tr IH]; [by destruct (decide _)|].
  cbn [fmap list_fmap]. destruct (decide (r = k)) as [Heq|Hne].
  - rewrite filter_cons_True by done. cbn. f_equal. exact IH.
  - rewrite filter_cons_False by done. exact IH.
Qed.

(** The session part of [handleComparisonReady]: one new object, one or two
    status writes for it, and its handler suspended in the second case. *)
Lemma handleComparisonReady_sessions (s : Dashboard) ws serviceName containerId
    beforeSnapshotId afterSnapshotId timeframe timestamp e :
  let s' := handleComparisonReady ws serviceName containerId beforeSnapshotId
              afterSnapshotId timeframe timestamp e s in
  let r := length (sessionObjects s) in
  ∃ session, sess_status session = waiting ∧
    ((sessionObjects s' = sessionObjects s ++ [session]
      ∧ statusWrites s' = statusWrites s ++ [(r, waiting)]
      ∧ awaiting s' = awaiting s)
     ∨ (sessionObjects s' = sessionObjects s ++ [with_status analyzing session]
        ∧ statusWrites s' = statusWrites s ++ [(r, waiting); (r, analyzing)]
        ∧ awaiting s' = awaiting s ++ [r])).
Proof.
  cbv zeta. unfold handleComparisonReady. cbn.
  eexists. split; [|destruct (has_data _ && has_data _); cbn; [right|left]].
  2:{ split; [|split; [|reflexivity]].
      - rewrite <- (Nat.add_0_r (length (sessionObjects s))) at 1.
        rewrite alter_app_r. reflexivity.
      - rewrite <- app_assoc. reflexivity. }
  - reflexivity.
  - done.
Qed.

(** The session part of the continuation, for a suspended handler. *)
Lemma analysisSettled_sessions (s : Dashboard) (r : nat) (outcome : AnalysisOutcome)
    (e : Env) (o : ComparisonSession) :
  r ∈ awaiting s → sessionObjects s !! r = Some o →
  let s' := analysisSettled r outcome e s in
  ∃ tr o',
    statusWrites s' = statusWrites s ++ ((λ st, (r, st)) <$> tr)
    ∧ awaiting s' = filter (λ r', r' ≠ r) (awaiting s)
    ∧ sessionObjects s' !! r = Some o'
    ∧ last tr = Some (sess_status o')
    ∧ (∀ k, k ≠ r → sessionObjects s' !! k = sessionObjects s !! k)
    ∧ length (sessionObjects s') = length (sessionObjects s)
    ∧ (tr = [failed] ∨ tr = [completed]
       ∨ (tr = [completed; failed] ∧ ¬ tame (AnalysisSettled r outcome e))).
Proof.
  intros Hr Ho. cbv zeta. unfold analysisSettled.
  rewrite decide_True by done. rewrite Ho.
  destruct outcome as [a|err].
  - destruct (suspiciousGrowth a) eqn:Hsus; [destruct (totalGrowthMB a) as [g|] eqn:Hg|].
    + exists [completed], (with_result a (with_status completed o)). cbn.
      rewrite !list_lookup_alter_eq, Ho. cbn. rewrite !length_alter.
      repeat split; [|by auto].
      intros k Hk. rewrite !list_lookup_alter_ne by done. reflexivity.
    + exists [completed; failed],
        (with_status failed (with_result a (with_status completed o))). cbn.
      rewrite !list_lookup_alter_eq, Ho. cbn. rewrite !length_alter, <- app_assoc.
      repeat split.
      * intros k Hk. rewrite !list_lookup_alter_ne by done. reflexivity.
      * right. right. split; [reflexivity|].
        cbn. intros Ht. destruct (Ht Hsus) as [g' Hg']. congruence.
    + exists [completed], (with_result a (with_status completed o)). cbn.
      rewrite !list_lookup_alter_eq, Ho. cbn. rewrite !length_alter.
      repeat split; [|by auto].
      intros k Hk. rewrite !list_lookup_alter_ne by done. reflexivity.
  - exists [failed], (with_status failed o). cbn.
    rewrite !list_lookup_alter_eq, Ho. cbn. rewrite !length_alter.
    repeat split; [|by auto].
    intros k Hk. rewrite !list_lookup_alter_ne by done. reflexivity.
Qed.

Lemma sessions_inv_initial (p : bool) : sessions_inv p initial.
Proof.
  split; cbn.
  - intros r st Hin. by apply elem_of_nil in Hin.
  - intros r o Hl. discriminate.
  - intros r Hin. by apply elem_of_nil in Hin.
Qed.

Lemma sessions_inv_step (p : bool) (s : Dashboard) (i : Input) :
  (p = false → tame i) → sessions_inv p s → sessions_inv p (step s i).
Proof.
  intros Htame Hinv.
  assert (sessionObjects (step s i) = sessionObjects s
          ∧ statusWrites (step s i) = statusWrites s
          ∧ awaiting (step s i) = awaiting s → sessions_inv p (step s i)) as Hsame.
  { intros (Ho & Hw & Ha). destruct Hinv as [H1 H2 H3].
    split; unfold status_trace; rewrite ?Ho, ?Hw, ?Ha; assumption. }
  destruct i as [ws d|ws msg e|ws e|e|r outcome e];
    try (apply Hsame, step_keeps_sessions; done).
  - destruct msg; try (apply Hsame, step_keeps_sessions; done).
    cbn [step handleAgentMessage].
    destruct (handleComparisonReady_sessions s ws serviceName containerId
                beforeSnapshotId afterSnapshotId timeframe timestamp e)
      as (session & Hst & [(Ho & Hw & Ha)|(Ho & Hw & Ha)]).
    + split; unfold status_trace; rewrite ?Ho, ?Hw, ?Ha.
      * intros r st Hin. rewrite length_app. cbn [length].
        apply elem_of_app in Hin as [Hin|Hin].
        -- apply (inv_writes _ _ Hinv) in Hin. lia.
        -- apply list_elem_of_singleton in Hin. injection Hin as -> _. lia.
      * intros r o Hl. rewrite status_trace_app.
        destruct (decide (r < length (sessionObjects s))) as [Hlt|Hge].
        -- rewrite lookup_app_l in Hl by done.
           rewrite filter_cons_False, filter_nil by (cbn; lia).
           rewrite app_nil_r. by apply (inv_trace _ _ Hinv).
        -- rewrite lookup_app_r in Hl by lia.
           apply list_lookup_singleton_Some in Hl as [Hr <-].
           assert (r = length (sessionObjects s)) as -> by lia.
           rewrite (status_trace_fresh p) by done.
           rewrite filter_cons_True by done. rewrite Hst. reflexivity.
      * intros r Hin. pose proof (inv_awaiting _ _ Hinv r Hin) as Hr.
        destruct (sessionObjects s !! r) as [o|] eqn:Hl; [|discriminate].
        rewrite (lookup_app_l_Some _ _ _ _ Hl). exact Hr.
    + split; unfold status_trace; rewrite ?Ho, ?Hw, ?Ha.
      * intros r st Hin. rewrite length_app. cbn [length].
        apply elem_of_app in Hin as [Hin|Hin].
        -- apply (inv_writes _ _ Hinv) in Hin. lia.
        -- apply elem_of_cons in Hin as [Hin|Hin];
             [|apply list_elem_of_singleton in Hin]; injection Hin as -> _; lia.
      * intros r o Hl. rewrite status_trace_app.
        destruct (decide (r < length (sessionObjects s))) as [Hlt|Hge].
        -- rewrite lookup_app_l in Hl by done.
           rewrite !filter_cons_False, filter_nil by (cbn; lia).
           rewrite app_nil_r. by apply (inv_trace _ _ Hinv).
        -- rewrite lookup_app_r in Hl by lia.
           apply list_lookup_singleton_Some in Hl as [Hr <-].
           assert (r = length (sessionObjects s)) as -> by lia.
           rewrite (status_trace_fresh p) by done.
           rewrite !filter_cons_True by done. reflexivity.
      * intros r Hin. apply elem_of_app in Hin as [Hin|Hin].
        -- pose proof (inv_awaiting _ _ Hinv r Hin) as Hr.
           destruct (sessionObjects s !! r) as [o|] eqn:Hl; [|discriminate].
           rewrite (lookup_app_l_Some _ _ _ _ Hl). exact Hr.
        -- apply list_elem_of_singleton in Hin as ->.
           rewrite lookup_app_r by lia. rewrite Nat.sub_diag. reflexivity.
  - cbn [step]. destruct (decide (r ∈ awaiting s)) as [Hr|Hr].
    2:{ apply Hsame. unfold step, analysisSettled. rewrite decide_False by done. done. }
    pose proof (inv_awaiting _ _ Hinv r Hr) as Hst.
    destruct (sessionObjects s !! r) as [o|] eqn:Hl; [|discriminate].
    injection Hst as Hst.
    pose proof (inv_trace _ _ Hinv r o Hl) as Htr. rewrite Hst in Htr. cbn in Htr.
    destruct (analysisSettled_sessions s r outcome e o Hr Hl)
      as (tr & o' & Hw & Ha & Ho' & Hlast & Hother & Hlen & Hcases).
    split; unfold status_trace; rewrite ?Hw, ?Ha, ?Hlen.
    + intros k st Hin. apply elem_of_app in Hin as [Hin|Hin].
      * by apply (inv_writes _ _ Hinv) in Hin.
      * apply list_elem_of_fmap in Hin as (st' & Heq & _). injection Heq as -> _.
        eapply lookup_lt_Some. exact Hl.
    + intros k ok Hk. rewrite status_trace_app, writes_of_one_session.
      destruct (decide (r = k)) as [<-|Hne].
      * rewrite Htr. rewrite Ho' in Hk. injection Hk as <-.
        destruct Hcases as [->|[->|[-> Hwild]]]; cbn in Hlast;
          injection Hlast as <-; cbn.
        -- by left.
        -- reflexivity.
        -- right. split; [|reflexivity].
           destruct p; [reflexivity|]. exfalso. apply Hwild, Htame. reflexivity.
      * rewrite app_nil_r. rewrite Hother in Hk by done.
        by apply (inv_trace _ _ Hinv).
    + intros k Hin. apply list_elem_of_filter in Hin as [Hne Hin].
      rewrite Hother by done. by apply (inv_awaiting _ _ Hinv).
Qed.

Lemma sessions_inv_run (p : bool) (inputs : list Input) : ∀ s,
  (p = false → Forall tame inputs) → sessions_inv p s → sessions_inv p (run s inputs).
Proof.
  induction inputs as [|i inputs IH]; intros s Htame Hinv; [exact Hinv|].
  cbn [run foldl]. fold (run (step s i) inputs). apply IH.
  - intros Hp. specialize (Htame Hp). by apply Forall_cons in Htame as [_ ?].
  - apply sessions_inv_step; [|exact Hinv].
    intros Hp. specialize (Htame Hp). by apply Forall_cons in Htame as [? _].
Qed.

(** In every execution a session's status writes are a path waiting,
    analyzing, then completed or failed, or that path followed by the
    overwrite of completed by failed. *)
Lemma session_status_writes (inputs : list Input) (r : nat) (o : ComparisonSession) :
  sessionObjects (run initial inputs) !! r = Some o →
  status_path true (sess_status o) (status_trace r (run initial inputs)).
Proof.
  apply (inv_trace true), sessions_inv_run; [done|apply sessions_inv_initial].
Qed.

(** X1. In every execution in which no suspicious analysis report lacks
    [totalGrowthMB] (no outcome makes the continuation throw), the status
    writes of each session form a path waiting, analyzing, then completed or
    failed: analyzing is entered at most once, no status is written twice
    and nothing follows a terminal status. *)
Lemma session_status_path_when_tame (inputs : list Input) (r : nat) (o : ComparisonSession) :
  Forall tame inputs →
  sessionObjects (run initial inputs) !! r = Some o →
  status_path false (sess_status o) (status_trace r (run initial inputs)).
Proof.
  intros Htame. apply (inv_trace false), sessions_inv_run; [done|apply sessions_inv_initial].
Qed.

Lemma step_session_frame (p : bool) (s : Dashboard) (i : Input) (r : nat)
    (o : ComparisonSession) :
  sessions_inv p s → sessionObjects s !! r = Some o → r ∉ awaiting s →
  sessionObjects (step s i) !! r = Some o ∧ r ∉ awaiting (step s i).
Proof.
  intros Hinv Hl Hr.
  assert (sessionObjects (step s i) = sessionObjects s
          ∧ statusWrites (step s i) = statusWrites s
          ∧ awaiting (step s i) = awaiting s →
          sessionObjects (step s i) !! r = Some o ∧ r ∉ awaiting (step s i)) as Hsame.
  { intros (Ho & _ & Ha). rewrite Ho, Ha. done. }
  destruct i as [ws d|ws msg e|ws e|e|r' outcome e];
    try (apply Hsame, step_keeps_sessions; done).
  - destruct msg; try (apply Hsame, step_keeps_sessions; done).
    cbn [step handleAgentMessage].
    pose proof (lookup_lt_Some _ _ _ Hl) as Hlt.
    destruct (handleComparisonReady_sessions s ws serviceName containerId
                beforeSnapshotId afterSnapshotId timeframe timestamp e)
      as (session & Hst & [(Ho & Hw & Ha)|(Ho & Hw & Ha)]); rewrite Ho, Ha.
    + split; [by apply lookup_app_l_Some|done].
    + split; [by apply lookup_app_l_Some|].
      rewrite elem_of_app, list_elem_of_singleton. intros [?|?]; [done|lia].
  - cbn [step]. destruct (decide (r' ∈ awaiting s)) as [Hr'|Hr'].
    2:{ apply Hsame. unfold step, analysisSettled. rewrite decide_False by done. done. }
    pose proof (inv_awaiting _ _ Hinv r' Hr') as Hst.
    destruct (sessionObjects s !! r') as [o'|] eqn:Hl'; [|discriminate].
    destruct (analysisSettled_sessions s r' outcome e o' Hr' Hl')
      as (tr & o'' & Hw & Ha & Ho' & Hlast & Hother & Hlen & Hcases).
    assert (r ≠ r') as Hne by (intros ->; done).
    rewrite Hother, Ha by done. split; [done|].
    rewrite list_elem_of_filter. intros [_ ?]. done.
Qed.

(** X2. Between handlers, a session on which no handler is suspended (its
    status is waiting, completed or failed) is never written again,
    whatever inputs follow: a waiting session is not resumed when its
    snapshots complete later, and a terminal one stays as its own handler
    left it. *)
Lemma session_not_analyzing_is_final (inputs more : list Input) (r : nat)
    (o : ComparisonSession) :
  sessionObjects (run initial inputs) !! r = Some o →
  sess_status o ≠ analyzing →
  sessionObjects (run (run initial inputs) more) !! r = Some o.
Proof.
  intros Hl Hst.
  assert (sessions_inv true (run initial inputs)) as Hinv
    by (apply sessions_inv_run; [done|apply sessions_inv_initial]).
  assert (r ∉ awaiting (run initial inputs)) as Hr.
  { intros Hin. apply (inv_awaiting _ _ Hinv) in Hin. rewrite Hl in Hin.
    injection Hin as Hin. done. }
  revert Hl Hr Hinv. generalize (run initial inputs) as s.
  induction more as [|i more IH]; intros s Hl Hr Hinv; [exact Hl|].
  cbn [run foldl]. fold (run (step s i) more).
  destruct (step_session_frame true s i r o Hinv Hl Hr) as [Hl' Hr'].
  apply IH; [exact Hl'|exact Hr'|].
  apply sessions_inv_step; done.
Qed.

End Sessions.

(** * Further properties of the server *)

(** ** Reading the rings *)

Lemma last_drop_lt {A} (k : nat) (l : list A) : k < length l → last (drop k l) = last l.
Proof.
  revert k. induction l as [|x l IH]; intros k Hk; [cbn in Hk; lia|].
  destruct k as [|k]; [reflexivity|]. cbn [drop].
  cbn [length] in Hk. rewrite IH by lia.
  destruct l; [cbn in Hk; lia | reflexivity].
Qed.

Lemma last_slice_last {A} (n : nat) (l : list A) : 0 < n → last (slice_last n l) = last l.
Proof.
  intros Hn. destruct l as [|x l]; [reflexivity|].
  unfold slice_last. apply last_drop_lt. cbn [length]. lia.
Qed.

Lemma slice_from_negative {A} (n : nat) (l : list A) :
  0 < n → slice_from (- Z.of_nat n) l = slice_last n l.
Proof.
  intros Hn. unfold slice_from, slice_last. cbv zeta.
  rewrite decide_True by lia. f_equal. lia.
Qed.

Lemma alerts_trimAlerts (s : Dashboard) : alerts (trimAlerts s) = slice_last 100 (alerts s).
Proof.
  unfold trimAlerts. destruct (decide _) as [Hgt|Hle]; [reflexivity|].
  rewrite slice_last_short by lia. reflexivity.
Qed.

Section Rings.
Context `{!Host}.

(** X3. The last metric served for a service is the sample ingested last:
    right after [handleMetrics] stores a sample, in any state, and in every
    execution from the empty server, where it is the latest arrival for that
    service (none when no sample arrived). *)
Theorem last_metric_is_latest_arrival (s : Dashboard) (ws : Conn) (m : MetricData)
    (e : Env) (inputs : list Input) (service : string) :
  getLastMetrics (m_service m) (handleMetrics ws m e s) = Some m
  ∧ getLastMetrics service (run initial inputs) = last (arrivals service inputs).
Proof.
  split.
  - change (last (ring (m_service m) (handleMetrics ws m e s)) = Some m).
    rewrite ring_handleMetrics, decide_True by done. cbv zeta.
    destruct (decide _) as [Hgt|Hle]; [|apply last_snoc].
    unfold shift. rewrite length_app in Hgt. cbn [length] in Hgt.
    destruct (ring (m_service m) s) as [|x l]; [cbn in Hgt; lia|].
    cbn [app tail]. apply last_snoc.
  - change (last (ring service (run initial inputs)) = last (arrivals service inputs)).
    assert (ring service initial = []) as Hinit
      by (unfold ring; cbn; by rewrite lookup_empty).
    rewrite ring_run by (rewrite Hinit; cbn [length]; lia).
    rewrite Hinit. cbn [app]. apply last_slice_last. lia.
Qed.

(** Both handlers that trim leave the last 100 of the ring with the new
    alert appended, the new alert last. *)
Lemma alerts_handleSnapshot ws service filename filepath timestamp e (s : Dashboard) :
  ∃ a, alerts (handleSnapshot ws service filename filepath timestamp e s)
       = slice_last 100 (alerts s ++ [a])
     ∧ alert_type a = snapshot ∧ alert_severity a = info ∧ alert_service a = service
     ∧ alert_filename a = Some filename ∧ alert_filepath a = Some filepath
     ∧ published (handleSnapshot ws service filename filepath timestamp e s)
       = published s ++ [snapshotAlert a].
Proof.
  eexists. unfold handleSnapshot. cbn [alerts published broadcastToClients set_published].
  rewrite alerts_trimAlerts. cbn [alerts set_alerts].
  split; [reflexivity|]. repeat split.
  unfold trimAlerts. destruct (decide _); reflexivity.
Qed.

Lemma alerts_handleLeakAlert m e (s : Dashboard) :
  ∃ a, alerts (handleLeakAlert m e s) = slice_last 100 (alerts s ++ [a])
     ∧ alert_type a = leak ∧ alert_severity a = critical
     ∧ alert_service a = m_service m
     ∧ alert_heapUsedMB a = Some (m_heapUsedMB m)
     ∧ alert_memoryGrowthMB a = Some (m_memoryGrowthMB m)
     ∧ alert_timestamp a = m_timestamp m.
Proof.
  eexists. unfold handleLeakAlert. cbn [alerts published broadcastToClients set_published].
  rewrite alerts_trimAlerts.
  destruct (Map_get (m_service m) (services s)); cbn [alerts set_alerts set_services];
    (split; [reflexivity|]); repeat split.
Qed.

(** X4. A snapshot notification and a metrics leak alert leave in the ring
    the last 100 of the earlier alerts followed by the new one: the ring
    holds at most 100 alerts, the alert just recorded is its last element
    (it is never the one evicted) and the alerts evicted are the oldest. *)
Theorem trimmed_ring_ends_with_new_alert (s : Dashboard) (ws : Conn)
    (service filename filepath : string) (timestamp : number) (m : MetricData) (e : Env) :
  (∃ a, alerts (handleSnapshot ws service filename filepath timestamp e s)
        = slice_last 100 (alerts s ++ [a])
      ∧ last (alerts (handleSnapshot ws service filename filepath timestamp e s)) = Some a
      ∧ alert_type a = snapshot ∧ alert_severity a = info
      ∧ alert_filename a = Some filename)
  ∧ (∃ a, alerts (handleLeakAlert m e s) = slice_last 100 (alerts s ++ [a])
        ∧ last (alerts (handleLeakAlert m e s)) = Some a
        ∧ alert_type a = leak ∧ alert_severity a = critical
        ∧ alert_heapUsedMB a = Some (m_heapUsedMB m))
  ∧ length (alerts (handleSnapshot ws service filename filepath timestamp e s)) ≤ 100
  ∧ length (alerts (handleLeakAlert m e s)) ≤ 100.
Proof.
  destruct (alerts_handleSnapshot ws service filename filepath timestamp e s)
    as (a & Ha & Ht & Hs & _ & Hf & _).
  destruct (alerts_handleLeakAlert m e s) as (b & Hb & Hbt & Hbs & _ & Hbh & _).
  split; [|split; [|split]].
  - exists a. rewrite Ha, last_slice_last, last_snoc by lia. done.
  - exists b. rewrite Hb, last_slice_last, last_snoc by lia. done.
  - rewrite Ha. apply slice_last_length.
  - rewrite Hb. apply slice_last_length.
Qed.

(** X5. The alerts sent to a new dashboard client ([getRecentAlerts] with
    its default limit 10) are the last 10 of the ring, newest first: at most
    10, and headed by the alert of the snapshot notification or metrics leak
    that was handled last. *)
Theorem recent_alerts_newest_first (s : Dashboard) (ws : Conn)
    (service filename filepath : string) (timestamp : number) (m : MetricData) (e : Env) :
  getRecentAlerts 10 s = reverse (slice_last 10 (alerts s))
  ∧ length (getRecentAlerts 10 s) ≤ 10
  ∧ head (getRecentAlerts 10 (handleSnapshot ws service filename filepath timestamp e s))
    = last (alerts (handleSnapshot ws service filename filepath timestamp e s))
  ∧ (∃ a, head (getRecentAlerts 10 (handleSnapshot ws service filename filepath timestamp e s))
          = Some a ∧ alert_filename a = Some filename ∧ alert_type a = snapshot)
  ∧ (∃ a, head (getRecentAlerts 10 (handleLeakAlert m e s)) = Some a
          ∧ alert_type a = leak ∧ alert_timestamp a = m_timestamp m).
Proof.
  assert (∀ t : Dashboard, getRecentAlerts 10 t = reverse (slice_last 10 (alerts t))) as Hrec.
  { intros t. unfold getRecentAlerts.
    rewrite <- (slice_from_negative 10) by lia. reflexivity. }
  assert (∀ t : Dashboard, head (getRecentAlerts 10 t) = last (alerts t)) as Hhead.
  { intros t. rewrite Hrec, head_reverse. apply last_slice_last. lia. }
  split; [apply Hrec|]. split; [rewrite Hrec, length_reverse; apply slice_last_length|].
  split; [apply Hhead|]. split.
  - destruct (alerts_handleSnapshot ws service filename filepath timestamp e s)
      as (a & Ha & Ht & _ & _ & Hf & _).
    exists a. rewrite Hhead, Ha, last_slice_last, last_snoc by lia. done.
  - destruct (alerts_handleLeakAlert m e s) as (b & Hb & Hbt & _ & _ & _ & _ & Hts).
    exists b. rewrite Hhead, Hb, last_slice_last, last_snoc by lia. done.
Qed.

End Rings.

(** ** The alert ring over an execution *)

Section AlertRing.
Context `{!Host}.

Ltac handler_cases :=
  repeat match goal with
         | |- context [match ?x with _ => _ end] => destruct x eqn:?; cbn
         end.

Lemma alerts_step_bound (s : Dashboard) (i : Input) :
  length (alerts (step s i))
  ≤ match i with
    | AnalysisSettled _ _ _ => S (length (alerts s))
    | _ => Nat.max 100 (length (alerts s))
    end.
Proof.
  destruct i as [ws d|ws msg e|ws e|e|r o e]; cbn [step].
  - unfold on_connection. destruct d; cbn; lia.
  - destruct msg; cbn [handleAgentMessage].
    + unfold handleServiceRegistration. cbn. handler_cases; lia.
    + unfold handleMetrics. cbn [alerts broadcastToClients set_published].
      destruct (m_leakDetected m).
      * cbv zeta.
        match goal with
        | |- context [handleLeakAlert m e ?t] => pose proof (handleLeakAlert_bound m e t)
        end.
        lia.
      * cbv zeta. cbn [alerts set_metrics]. destruct (Map_get _ _); cbn; lia.
    + pose proof (handleSnapshot_bound ws service filename filepath timestamp e s). lia.
    + cbn. lia.
    + cbn. lia.
    + unfold handleSnapshotChunk. handler_cases; lia.
    + unfold handleSnapshotComplete. handler_cases; lia.
    + unfold handleComparisonReady. cbn. handler_cases; lia.
    + lia.
  - unfold on_close. cbn. destruct (close_scan _ _ _); cbn; lia.
  - unfold on_sweep. destruct (sweep_scan _ _); cbn; lia.
  - unfold analysisSettled, comparison_catch. handler_cases; rewrite ?length_app; cbn; lia.
Qed.

Lemma alerts_run_bound (inputs : list Input) : ∀ s,
  length (alerts (run s inputs))
  ≤ Nat.max 100 (length (alerts s)) + analysis_completions inputs.
Proof.
  induction inputs as [|i inputs IH]; intros s; [cbn; lia|].
  cbn [run foldl]. fold (run (step s i) inputs).
  specialize (IH (step s i)). pose proof (alerts_step_bound s i) as Hstep.
  destruct i as [ws d|ws msg e|ws e|e|r o e]; cbn [analysis_completions]; lia.
Qed.

(** X6. In every execution from the empty server the alert ring holds at
    most 100 alerts plus one for each analysis completion among the inputs:
    only alerts of completed comparisons can take it past 100, and without
    analysis completions it never holds more than 100. *)
Theorem alert_ring_exceeds_only_by_comparisons (inputs : list Input) :
  length (alerts (run initial inputs)) ≤ 100 + analysis_completions inputs.
Proof.
  pose proof (alerts_run_bound inputs initial) as Hb. cbn [initial alerts length] in Hb. lia.
Qed.

End AlertRing.

(** ** The alerts query *)

Lemma slice_from_length {A} (start : Z) (l : list A) :
  length (slice_from start l)
  = if decide (start < 0)%Z then Nat.min (Z.to_nat (- start)) (length l)
    else length l - Z.to_nat start.
Proof.
  unfold slice_from. cbv zeta. rewrite length_drop.
  destruct (decide (start < 0)%Z); lia.
Qed.

Lemma slice_from_zero {A} (l : list A) : slice_from 0 l = l.
Proof.
  unfold slice_from. cbv zeta. rewrite decide_False by lia.
  replace (Z.to_nat (Z.min 0 (Z.of_nat (length l)))) with 0 by lia. reflexivity.
Qed.

Lemma slice_from_sublist {A} (start : Z) (l : list A) (x : A) :
  x ∈ slice_from start l → x ∈ l.
Proof.
  unfold slice_from. cbv zeta. intros Hx.
  eapply elem_of_sublist; [exact Hx|apply sublist_drop].
Qed.

Lemma filtered_alerts_matches (service severity : option string) (s : Dashboard) :
  filtered_alerts service severity s
  = filter (λ a, alert_matches service severity a = true) (alerts s).
Proof.
  unfold filtered_alerts, alert_matches. cbv zeta.
  destruct (given service) as [v|], (given severity) as [w|].
  - rewrite list_filter_filter. apply list_filter_iff. intros a.
    rewrite andb_true_iff, !bool_decide_eq_true. tauto.
  - apply list_filter_iff. intros a.
    rewrite andb_true_iff, bool_decide_eq_true. tauto.
  - apply list_filter_iff. intros a. cbn. rewrite bool_decide_eq_true. tauto.
  - induction (alerts s) as [|a l IH]; [reflexivity|].
    rewrite filter_cons_True by done. by rewrite <- IH.
Qed.

(** X7. [GET /api/alerts] returns only alerts of the ring that match the
    filters sent: the service when a non-empty one is given, the severity,
    compared as text, when a non-empty one is given.  [total] counts every
    matching alert of the ring, returned or not, so the alerts returned are
    at most [total], which is at most the ring size. *)
Theorem api_alerts_returns_matching_alerts (limit : option Z) (service severity : option string)
    (s : Dashboard) :
  Forall (λ a,
      a ∈ alerts s
      ∧ match given service with Some v => alert_service a = v | None => True end
      ∧ match given severity with
        | Some v => severity_name (alert_severity a) = v
        | None => True
        end)
    (resp_alerts (api_alerts limit service severity s))
  ∧ resp_total (api_alerts limit service severity s)
    = length (filter (λ a, alert_matches service severity a = true) (alerts s))
  ∧ length (resp_alerts (api_alerts limit service severity s))
    ≤ resp_total (api_alerts limit service severity s)
  ∧ resp_total (api_alerts limit service severity s) ≤ length (alerts s).
Proof.
  split; [|split; [|split]].
  - apply Forall_forall. intros a Ha. cbn in Ha.
    apply elem_of_reverse, slice_from_sublist in Ha.
    rewrite filtered_alerts_matches in Ha.
    apply list_elem_of_filter in Ha as [Hm Ha]. split; [exact Ha|].
    unfold alert_matches in Hm. apply andb_true_iff in Hm as [H1 H2].
    destruct (given service), (given severity);
      try apply bool_decide_eq_true in H1; try apply bool_decide_eq_true in H2;
      split; done.
  - cbn. by rewrite filtered_alerts_matches.
  - cbn. rewrite length_reverse, slice_from_length.
    destruct (decide _); lia.
  - cbn. rewrite filtered_alerts_matches. apply length_filter.
Qed.

(** X8. The [limit] of [GET /api/alerts]: a positive limit [n] returns the
    [n] newest matching alerts, newest first (all of them when there are
    fewer); a limit of 0, or one that does not parse, returns every matching
    alert; a negative limit [-k] drops the [k] oldest matching alerts. *)
Theorem api_alerts_limit (limit : option Z) (service severity : option string)
    (s : Dashboard) :
  resp_alerts (api_alerts limit service severity s)
  = match limit with
    | None => reverse (filtered_alerts service severity s)
    | Some n =>
        if decide (0 < n)%Z then
          reverse (slice_last (Z.to_nat n) (filtered_alerts service severity s))
        else reverse (drop (Z.to_nat (- n)) (filtered_alerts service severity s))
    end.
Proof.
  unfold api_alerts. cbv zeta. cbn [resp_alerts].
  destruct limit as [n|]; cbn [minus_limit]; [|by rewrite slice_from_zero].
  destruct (decide (0 < n)%Z) as [Hpos|Hneg]; f_equal.
  - rewrite <- (Z2Nat.id n) at 1 by lia. apply slice_from_negative. lia.
  - unfold slice_from. cbv zeta. rewrite decide_False by lia.
    destruct (decide (Z.to_nat (- n) ≤ length (filtered_alerts service severity s))).
    + f_equal. lia.
    + rewrite !drop_ge by lia. reflexivity.
Qed.

(** ** The metrics query *)

Lemma in_window_bounds (lo hi : Z) (m : MetricData) :
  in_window (Some lo) (Some hi) m = true →
  (inject_Z lo <= m_timestamp m)%Q ∧ (m_timestamp m <= inject_Z hi)%Q.
Proof.
  unfold in_window. intros Hw. apply andb_true_iff in Hw as [Hl Hh].
  split; by apply Qle_bool_iff.
Qed.

(** X9. [GET /api/services/:serviceName/metrics] returns samples of that
    service's ring only (none for a service without ring).  Without [from]
    and [to] the total is the ring size; with them every sample returned has
    its timestamp in the window, where a missing [from] is 0 and a missing
    [to] is the current time; a bound that does not parse matches no
    sample. *)
Theorem api_metrics_window (serviceName : string) (limit : option Z)
    (from to : option (option Z)) (e : Env) (s : Dashboard) :
  Forall (λ m, m ∈ ring serviceName s)
    (resp_metrics (api_metrics serviceName limit from to e s))
  ∧ length (resp_metrics (api_metrics serviceName limit from to e s))
    ≤ resp_metrics_total (api_metrics serviceName limit from to e s)
  ∧ resp_metrics_total (api_metrics serviceName limit from to e s)
    ≤ length (ring serviceName s)
  ∧ resp_metrics_total (api_metrics serviceName limit None None e s)
    = length (ring serviceName s)
  ∧ (∀ lo hi,
       Forall (λ m, (inject_Z lo <= m_timestamp m)%Q ∧ (m_timestamp m <= inject_Z hi)%Q)
         (resp_metrics (api_metrics serviceName limit (Some (Some lo)) (Some (Some hi)) e s)))
  ∧ (∀ lo,
       Forall (λ m, (inject_Z lo <= m_timestamp m)%Q ∧ (m_timestamp m <= inject_Z (now e))%Q)
         (resp_metrics (api_metrics serviceName limit (Some (Some lo)) None e s)))
  ∧ (∀ hi,
       Forall (λ m, (0 <= m_timestamp m)%Q ∧ (m_timestamp m <= inject_Z hi)%Q)
         (resp_metrics (api_metrics serviceName limit None (Some (Some hi)) e s)))
  ∧ resp_metrics_total (api_metrics serviceName limit (Some None) to e s) = 0
  ∧ resp_metrics_total (api_metrics serviceName limit from (Some None) e s) = 0.
Proof.
  assert (∀ lo hi l,
    Forall (λ m, (inject_Z lo <= m_timestamp m)%Q ∧ (m_timestamp m <= inject_Z hi)%Q)
      (slice_from (minus_limit limit)
         (filter (λ m, in_window (Some lo) (Some hi) m = true) l))) as Hwin.
  { intros lo hi l. apply Forall_forall. intros m Hm.
    apply slice_from_sublist, list_elem_of_filter in Hm as [Hm _].
    by apply in_window_bounds. }
  assert (∀ lo (l : list MetricData), filter (λ m, in_window None lo m = true) l = []) as Hnan.
  { intros lo l. induction l as [|m l IH]; [reflexivity|].
    rewrite filter_cons_False by done. exact IH. }
  assert (∀ lo (l : list MetricData), filter (λ m, in_window lo None m = true) l = []) as Hnan'.
  { intros lo l. induction l as [|m l IH]; [reflexivity|].
    rewrite filter_cons_False by (destruct lo; done). exact IH. }
  repeat split.
  - apply Forall_forall. intros m Hm. cbn in Hm.
    apply slice_from_sublist in Hm. unfold ring.
    destruct from, to; try (by apply list_elem_of_filter in Hm as [_ Hm]). exact Hm.
  - cbn. rewrite slice_from_length. destruct (decide _); lia.
  - cbn. unfold ring. destruct from, to; try apply length_filter. done.
  - intros lo hi. apply Hwin.
  - intros lo. apply Hwin.
  - intros hi. apply (Hwin 0%Z).
  - unfold api_metrics. cbv zeta. cbn [resp_metrics_total].
    destruct to; by rewrite Hnan.
  - unfold api_metrics. cbv zeta. cbn [resp_metrics_total].
    destruct from; by rewrite Hnan'.
Qed.

(** ** The periodic cleanup and the services listing *)

Lemma Qgtb_lt (x y : Q) : Qgtb x y = true ↔ (y < x)%Q.
Proof.
  unfold Qgtb. rewrite negb_true_iff. split.
  - intros Hle. apply Qnot_le_lt. intros Hxy. apply Qle_bool_iff in Hxy. congruence.
  - intros Hlt. destruct (Qle_bool x y) eqn:Hle; [|reflexivity].
    apply Qle_bool_iff in Hle. exfalso. by apply (Qlt_not_le y x).
Qed.

Lemma Qgtb_false_le (x y : Q) : Qgtb x y = false → (x <= y)%Q.
Proof.
  unfold Qgtb. rewrite negb_false_iff. apply Qle_bool_iff.
Qed.

Lemma expired_iff (t : number) (service : ServiceInfo) :
  expired t service = true
  ↔ svc_status service = connected ∧ (60000 < t - svc_lastSeen service)%Q.
Proof.
  unfold expired, is_connected. rewrite andb_true_iff, Qgtb_lt.
  destruct (svc_status service); intuition congruence.
Qed.

Lemma sweep_scan_spec (t : number) (l : list (string * ServiceInfo)) :
  sweep_scan t l
  = ((λ p, (p.1, if expired t p.2 then mark_disconnected p.2 else p.2)) <$> l,
     (λ p : string * ServiceInfo, serviceUpdate p.1 disconnected)
       <$> filter (λ p, expired t p.2 = true) l).
Proof.
  induction l as [|[n svc] l IH]; [reflexivity|].
  cbn [sweep_scan]. rewrite IH. cbn [fmap list_fmap fst snd].
  destruct (expired t svc) eqn:He.
  - rewrite filter_cons_True by done.
    unfold expired, is_connected in He.
    destruct (svc_status svc); [|discriminate]. cbn in He. rewrite He. reflexivity.
  - rewrite filter_cons_False by (cbn; congruence).
    unfold expired, is_connected in He.
    destruct (svc_status svc); cbn in He; [rewrite He|]; reflexivity.
Qed.

Lemma expired_after_mark (t : number) (p : string * ServiceInfo) :
  expired t (if expired t p.2 then mark_disconnected p.2 else p.2) = false.
Proof.
  destruct (expired t p.2) eqn:He; [reflexivity | exact He].
Qed.

(** A second cleanup at the same instant changes no service and broadcasts
    nothing. *)
Lemma sweep_twice_is_sweep_once (e : Env) (s : Dashboard) :
  services (on_sweep e (on_sweep e s)) = services (on_sweep e s)
  ∧ published (on_sweep e (on_sweep e s)) = published (on_sweep e s).
Proof.
  unfold on_sweep. rewrite !sweep_scan_spec. cbn. split.
  - rewrite <- list_fmap_compose. apply list_fmap_ext. intros i [n svc] _. cbn.
    destruct (expired (inject_Z (now e)) svc) eqn:He; [reflexivity|by rewrite He].
  - rewrite <- (app_nil_r (published s ++ _)) at 2. f_equal.
    induction (services s) as [|p l IH]; [reflexivity|].
    cbn [fmap list_fmap]. rewrite filter_cons_False; [exact IH|].
    cbn. rewrite expired_after_mark. done.
Qed.

(** X10. The periodic cleanup marks as disconnected exactly the services
    that are connected and whose last message is more than 60000 ms old
    (strictly: a service seen exactly 60000 ms ago stays connected), in the
    map's order and without touching any other field or any service's
    place; it broadcasts one [serviceUpdate] for each service it marks, in
    that order, and leaves metrics, alerts and snapshots alone.  A second
    cleanup at the same instant changes no service and broadcasts nothing:
    a service that timed out is announced once. *)
Theorem sweep_marks_exactly_the_expired (e : Env) (s : Dashboard) :
  services (on_sweep e s)
  = (λ p, (p.1, if expired (inject_Z (now e)) p.2 then mark_disconnected p.2 else p.2))
      <$> services s
  ∧ published (on_sweep e s)
    = published s ++ ((λ p : string * ServiceInfo, serviceUpdate p.1 disconnected)
        <$> filter (λ p, expired (inject_Z (now e)) p.2 = true) (services s))
  ∧ (∀ service, expired (inject_Z (now e)) service = true
       ↔ svc_status service = connected
         ∧ (60000 < inject_Z (now e) - svc_lastSeen service)%Q)
  ∧ metrics (on_sweep e s) = metrics s
  ∧ alerts (on_sweep e s) = alerts s
  ∧ snapshots (on_sweep e s) = snapshots s
  ∧ services (on_sweep e (on_sweep e s)) = services (on_sweep e s)
  ∧ published (on_sweep e (on_sweep e s)) = published (on_sweep e s).
Proof.
  destruct (sweep_twice_is_sweep_once e s) as [Hs Hp].
  assert (services (on_sweep e s)
          = (λ p, (p.1, if expired (inject_Z (now e)) p.2 then mark_disconnected p.2
                        else p.2)) <$> services s
          ∧ published (on_sweep e s)
            = published s ++ ((λ p : string * ServiceInfo, serviceUpdate p.1 disconnected)
                <$> filter (λ p, expired (inject_Z (now e)) p.2 = true) (services s))
          ∧ metrics (on_sweep e s) = metrics s
          ∧ alerts (on_sweep e s) = alerts s
          ∧ snapshots (on_sweep e s) = snapshots s) as (A & B & C & D & E).
  { unfold on_sweep. rewrite sweep_scan_spec. cbn. done. }
  exact (conj A (conj B (conj (λ service, expired_iff _ service)
           (conj C (conj D (conj E (conj Hs Hp))))))).
Qed.

(** X11. [GET /api/services] lists the connected services only, each with
    the last sample of its ring, and as many of them as [GET /api/stats]
    counts as connected; right after a cleanup at time [now] no listed
    service was last seen more than 60000 ms before [now]. *)
Theorem services_listing_shows_live_services (e : Env) (s : Dashboard) :
  Forall (λ v, view_status v = connected
               ∧ view_lastMetrics v = getLastMetrics (view_name v) s)
    (getServicesData s)
  ∧ length (getServicesData s) = stat_connectedServices (api_stats s)
  ∧ stat_connectedServices (api_stats s) ≤ stat_totalServices (api_stats s)
  ∧ Forall (λ v, (inject_Z (now e) - view_lastSeen v <= 60000)%Q)
      (getServicesData (on_sweep e s)).
Proof.
  split; [|split; [|split]].
  - unfold getServicesData. apply Forall_fmap, Forall_forall.
    intros [n svc] Hin. apply list_elem_of_filter in Hin as [Hc _]. cbn in *.
    unfold is_connected in Hc. destruct (svc_status svc); done.
  - unfold getServicesData. cbn. apply length_fmap.
  - cbn. apply length_filter.
  - unfold getServicesData. apply Forall_fmap, Forall_forall.
    intros [n svc] Hin. apply list_elem_of_filter in Hin as [Hc Hin]. cbn in *.
    unfold on_sweep in Hin. rewrite sweep_scan_spec in Hin. cbn in Hin.
    apply list_elem_of_fmap in Hin as ([n' svc'] & Heq & _). cbn in Heq.
    injection Heq as -> ->.
    destruct (expired (inject_Z (now e)) svc') eqn:He; [discriminate|].
    unfold expired in He. rewrite Hc in He. cbn in He.
    by apply Qgtb_false_le.
Qed.

(** ** Closing a socket *)

Lemma close_scan_keys (ws : Conn) (t : number) (l : list (string * ServiceInfo)) :
  ((close_scan ws t l).1).*1 = l.*1.
Proof.
  induction l as [|[n svc] l IH]; [reflexivity|]. cbn [close_scan].
  destruct (decide _); [reflexivity|].
  destruct (close_scan ws t l) as [l' evs]. cbn in *. by rewrite IH.
Qed.





(** ** Metric samples and the service record *)

Section Samples.
Context `{!Host}.

(** X13. A sample with [leakDetected] for a registered service: the
    service becomes (or stays) connected with [lastSeen] at the sample's
    timestamp, its [totalAlerts] grows by exactly one and its other fields
    are kept; one critical leak alert carrying the sample's heap figures and
    timestamp is recorded in the trimmed ring, its id the sum of the clock
    and [Math.random()] as the platform adds them; the [leakAlert] frame is
    broadcast before the [metricsUpdate] frame of the same sample. *)
Theorem leak_sample_records_one_alert (s : Dashboard) (ws : Conn) (m : MetricData)
    (e : Env) (service : ServiceInfo) :
  m_leakDetected m = true →
  Map_get (m_service m) (services s) = Some service →
  Map_get (m_service m) (services (handleMetrics ws m e s))
    = Some {| svc_name := svc_name service; svc_status := connected;
              svc_connection := svc_connection service;
              svc_registeredAt := svc_registeredAt service;
              svc_lastSeen := m_timestamp m;
              svc_totalAlerts := S (svc_totalAlerts service) |}
  ∧ ∃ a,
      published (handleMetrics ws m e s) = published s ++ [leakAlert a; metricsUpdate m]
      ∧ alerts (handleMetrics ws m e s) = slice_last 100 (alerts s ++ [a])
      ∧ alert_type a = leak ∧ alert_severity a = critical
      ∧ alert_service a = m_service m
      ∧ alert_id a = number_add (inject_Z (now e)) (random e)
      ∧ alert_timestamp a = m_timestamp m
      ∧ alert_heapUsedMB a = Some (m_heapUsedMB m)
      ∧ alert_memoryGrowthMB a = Some (m_memoryGrowthMB m).
Proof.
  intros Hleak Hget. unfold handleMetrics. rewrite Hget, Hleak. cbv zeta.
  unfold handleLeakAlert. cbn [services set_services set_metrics].
  rewrite Map_get_set_eq. cbn [services set_services set_metrics set_alerts alerts
    broadcastToClients set_published published].
  split.
  - unfold trimAlerts. destruct (decide _); cbn; apply Map_get_set_eq.
  - eexists. rewrite alerts_trimAlerts. cbn [alerts set_alerts].
    split; [|split; [reflexivity|repeat split]].
    unfold trimAlerts. destruct (decide _); cbn; rewrite <- app_assoc; reflexivity.
Qed.

(** X14. A sample for a name that is not registered creates no service
    record: the services are unchanged, while the sample still becomes the
    last metric of that name's ring, and with [leakDetected] an alert is
    still recorded for the name. *)
Theorem sample_of_unknown_service (s : Dashboard) (ws : Conn) (m : MetricData) (e : Env) :
  Map_get (m_service m) (services s) = None →
  services (handleMetrics ws m e s) = services s
  ∧ getLastMetrics (m_service m) (handleMetrics ws m e s) = Some m
  ∧ if m_leakDetected m then
      ∃ a, alerts (handleMetrics ws m e s) = slice_last 100 (alerts s ++ [a])
           ∧ alert_service a = m_service m
           ∧ published (handleMetrics ws m e s)
             = published s ++ [leakAlert a; metricsUpdate m]
    else alerts (handleMetrics ws m e s) = alerts s
         ∧ published (handleMetrics ws m e s) = published s ++ [metricsUpdate m].
Proof.
  intros Hget. split; [|split].
  - unfold handleMetrics. rewrite Hget. cbv zeta.
    destruct (m_leakDetected m); [|reflexivity].
    unfold handleLeakAlert. cbn [services set_metrics]. rewrite Hget.
    unfold trimAlerts. cbn. destruct (decide _); reflexivity.
  - change (last (ring (m_service m) (handleMetrics ws m e s)) = Some m).
    rewrite ring_handleMetrics, decide_True by done. cbv zeta.
    destruct (decide _) as [Hgt|Hle]; [|apply last_snoc].
    unfold shift. rewrite length_app in Hgt. cbn [length] in Hgt.
    destruct (ring (m_service m) s) as [|x l]; [cbn in Hgt; lia|].
    cbn [app tail]. apply last_snoc.
  - unfold handleMetrics. rewrite Hget. cbv zeta.
    destruct (m_leakDetected m); [|done].
    unfold handleLeakAlert. cbn [services set_metrics]. rewrite Hget.
    eexists. cbn [alerts broadcastToClients set_published published].
    rewrite alerts_trimAlerts. cbn [alerts set_alerts set_metrics].
    split; [reflexivity|]. split; [reflexivity|].
    unfold trimAlerts. destruct (decide _); cbn; rewrite <- app_assoc; reflexivity.
Qed.

(** X15. A sample without [leakDetected] for a registered service marks the
    service connected again, also one that a close or the cleanup had
    disconnected, and sets [lastSeen] to the sample's timestamp; the
    connection stored with the service is not replaced by the sender's, and
    [registeredAt] and [totalAlerts] are kept.  No alert is recorded and the
    only frame broadcast is the [metricsUpdate]. *)
Theorem sample_reconnects_service (s : Dashboard) (ws : Conn) (m : MetricData)
    (e : Env) (service : ServiceInfo) :
  m_leakDetected m = false →
  Map_get (m_service m) (services s) = Some service →
  Map_get (m_service m) (services (handleMetrics ws m e s))
    = Some {| svc_name := svc_name service; svc_status := connected;
              svc_connection := svc_connection service;
              svc_registeredAt := svc_registeredAt service;
              svc_lastSeen := m_timestamp m;
              svc_totalAlerts := svc_totalAlerts service |}
  ∧ alerts (handleMetrics ws m e s) = alerts s
  ∧ published (handleMetrics ws m e s) = published s ++ [metricsUpdate m]
  ∧ ((services (handleMetrics ws m e s)).*1 = (services s).*1).
Proof.
  intros Hleak Hget. unfold handleMetrics. rewrite Hget, Hleak. cbn.
  split; [apply Map_get_set_eq|]. split; [reflexivity|]. split; [reflexivity|].
  clear Hleak. revert Hget. generalize (m_service m) as k.
  intros k. induction (services s) as [|[n v] l IH]; [discriminate|].
  cbn. destruct (decide (n = k)) as [->|Hne]; [reflexivity|].
  intros Hl. cbn. f_equal. by apply IH.
Qed.

End Samples.

Lemma leak_sample_records_one_alert_witness :
  (svc_totalAlerts <$> Map_get "svc-a" (services closed_service_state)) = Some 0
  ∧ (svc_totalAlerts <$> Map_get "svc-a" (services
       (handleMetrics (H := node_host) 9 (sample "svc-a" 1000200 true)
          {| now := 1700000000000; now' := 1700000000000; random := 3 # 8192; fs_ok := true |}
          closed_service_state))) = Some 1
  ∧ (alert_id <$> last (alerts
       (handleMetrics (H := node_host) 9 (sample "svc-a" 1000200 true)
          {| now := 1700000000000; now' := 1700000000000; random := 3 # 8192; fs_ok := true |}
          closed_service_state))) = Some (3481600000000001 # 2048)%Q.
Proof.
  split; [reflexivity|].
  destruct (leak_sample_records_one_alert (H := node_host) closed_service_state 9
              (sample "svc-a" 1000200 true)
              {| now := 1700000000000; now' := 1700000000000; random := 3 # 8192; fs_ok := true |}
              {| svc_name := "svc-a"; svc_status := disconnected; svc_connection := 7;
                 svc_registeredAt := 1000000; svc_lastSeen := 1700000000000;
                 svc_totalAlerts := 0 |}) as [Hrec (a & _ & Halerts & _ & _ & _ & Hid & _)].
  - reflexivity.
  - reflexivity.
  - split; [exact (f_equal (fmap svc_totalAlerts) Hrec)|].
    rewrite Halerts, last_slice_last, last_snoc by lia. cbn [fmap option_fmap option_map].
    rewrite Hid. vm_compute. reflexivity.
Defined.

Lemma sample_of_unknown_service_witness :
  Map_get "ghost" (services closed_service_state) = None
  ∧ services (handleMetrics (H := node_host) 9 (sample "ghost" 1000200 false) env0
                closed_service_state) = services closed_service_state.
Proof.
  split; [reflexivity|].
  apply (sample_of_unknown_service (H := node_host) closed_service_state 9
           (sample "ghost" 1000200 false) env0).
  reflexivity.
Defined.

Lemma sample_reconnects_service_witness :
  (svc_status <$> Map_get "svc-a" (services closed_service_state)) = Some disconnected
  ∧ Map_get "svc-a" (services
      (handleMetrics (H := node_host) 9 (sample "svc-a" 1000200 false) env0
         closed_service_state))
    = Some {| svc_name := "svc-a"; svc_status := connected; svc_connection := 7;
              svc_registeredAt := 1000000; svc_lastSeen := 1000200;
              svc_totalAlerts := 0 |}.
Proof.
  split; [reflexivity|].
  apply (sample_reconnects_service (H := node_host) closed_service_state 9
           (sample "svc-a" 1000200 false) env0
           {| svc_name := "svc-a"; svc_status := disconnected; svc_connection := 7;
              svc_registeredAt := 1000000; svc_lastSeen := 1700000000000;
              svc_totalAlerts := 0 |}); reflexivity.
Defined.

(** ** The services map *)

Lemma Map_set_keys {V} (k : string) (v : V) (m : list (string * V)) :
  (Map_set k v m).*1
  = match Map_get k m with
    | Some _ => m.*1
    | None => m.*1 ++ [k]
    end.
Proof.
  induction m as [|[k' v'] m IH]; [reflexivity|]. cbn.
  destruct (decide (k' = k)) as [->|Hne]; [reflexivity|].
  cbn. rewrite IH. destruct (Map_get k m); reflexivity.
Qed.

Lemma Map_get_None_keys {V} (k : string) (m : list (string * V)) :
  Map_get k m = None ↔ k ∉ m.*1.
Proof.
  induction m as [|[k' v'] m IH]; cbn.
  - split; [intros _; apply not_elem_of_nil|done].
  - rewrite not_elem_of_cons. destruct (decide (k' = k)) as [->|Hne].
    + split; [discriminate|intros [? _]; done].
    + rewrite IH. split; [intros ?; split; [congruence|done]|intros [_ ?]; done].
Qed.

Lemma Map_get_elem_of {V} (k : string) (v : V) (m : list (string * V)) :
  Map_get k m = Some v → (k, v) ∈ m.
Proof.
  induction m as [|[k' v'] m IH]; cbn; [discriminate|].
  destruct (decide (k' = k)) as [->|Hne].
  - intros [= ->]. left.
  - intros Hg. right. by apply IH.
Qed.

Lemma Map_set_Forall {V} (P : string * V → Prop) (k : string) (v : V)
    (m : list (string * V)) :
  Forall P m → P (k, v) → Forall P (Map_set k v m).
Proof.
  intros Hm Hkv. induction Hm as [|[k' v'] m Hp Hm IH]; cbn.
  - by constructor.
  - destruct (decide (k' = k)); constructor; done.
Qed.

(** X16. A registration changes no other service's record and no
    service's place: a known name keeps its position in the map (and so in
    every listing), a new name is added last.  It broadcasts one
    [serviceRegistered] frame, makes sure the name has a metric ring, and
    touches neither alerts nor snapshots. *)
Theorem registration_keeps_other_services (s : Dashboard) (ws : Conn) (service : string)
    (timestamp : number) :
  (∀ other, other ≠ service →
     Map_get other (services (handleServiceRegistration ws service timestamp s))
     = Map_get other (services s))
  ∧ (services (handleServiceRegistration ws service timestamp s)).*1
    = match Map_get service (services s) with
      | Some _ => (services s).*1
      | None => (services s).*1 ++ [service]
      end
  ∧ published (handleServiceRegistration ws service timestamp s)
    = published s ++ [serviceRegistered service timestamp]
  ∧ is_Some (metrics (handleServiceRegistration ws service timestamp s) !! service)
  ∧ alerts (handleServiceRegistration ws service timestamp s) = alerts s
  ∧ snapshots (handleServiceRegistration ws service timestamp s) = snapshots s.
Proof.
  unfold handleServiceRegistration. cbn.
  destruct (metrics s !! service) eqn:Hm; cbn; rewrite ?Hm, ?lookup_insert_eq;
    (split; [intros other Hne; by apply Map_get_set_ne|]);
    (split; [apply Map_set_keys|]); repeat split; eauto.
Qed.

Lemma string_length_app (a b : string) :
  String.length (a +:+ b) = String.length a + String.length b.
Proof.
  induction a as [|c a IH]; [reflexivity|].
  change (String c a +:+ b) with (String c (a +:+ b)).
  cbn [String.length Nat.add]. f_equal. exact IH.
Qed.

Lemma capture_name_differs (serviceName : string) : "capture-" +:+ serviceName ≠ serviceName.
Proof.
  intros Heq. apply (f_equal String.length) in Heq.
  rewrite string_length_app in Heq. cbn in Heq. lia.
Qed.

(** X17. Registering a capture agent for a service stores a connected
    record under the name [capture-<service>] and nothing else: every other
    record, the record of the service itself included, is unchanged, no
    metric ring is created, and one [captureAgentRegistered] frame is
    broadcast. *)
Theorem capture_agent_is_a_separate_service (s : Dashboard) (ws : Conn)
    (serviceName containerId : string) (timestamp : number) :
  Map_get ("capture-" +:+ serviceName)
    (services (handleCaptureAgentRegistration ws serviceName containerId timestamp s))
  = Some {| svc_name := "capture-" +:+ serviceName; svc_status := connected;
            svc_connection := ws; svc_registeredAt := timestamp;
            svc_lastSeen := timestamp; svc_totalAlerts := 0 |}
  ∧ Map_get serviceName
      (services (handleCaptureAgentRegistration ws serviceName containerId timestamp s))
    = Map_get serviceName (services s)
  ∧ (∀ other, other ≠ "capture-" +:+ serviceName →
       Map_get other
         (services (handleCaptureAgentRegistration ws serviceName containerId timestamp s))
       = Map_get other (services s))
  ∧ metrics (handleCaptureAgentRegistration ws serviceName containerId timestamp s)
    = metrics s
  ∧ published (handleCaptureAgentRegistration ws serviceName containerId timestamp s)
    = published s ++ [captureAgentRegistered serviceName containerId timestamp].
Proof.
  unfold handleCaptureAgentRegistration. cbn.
  split; [apply Map_get_set_eq|].
  split; [apply Map_get_set_ne, capture_name_differs|].
  split; [intros other Hne; by apply Map_get_set_ne|]. done.
Qed.

Lemma services_grow_refl (l : list (string * ServiceInfo)) : services_grow l l.
Proof. split; done. Qed.

Lemma services_grow_trans (l1 l2 l3 : list (string * ServiceInfo)) :
  services_grow l1 l2 → services_grow l2 l3 → services_grow l1 l3.
Proof.
  intros [Hp1 Hw1] [Hp2 Hw2]. split; [by etransitivity|auto].
Qed.

Lemma services_grow_Map_set (k : string) (v : ServiceInfo) (l : list (string * ServiceInfo)) :
  (services_wf l → svc_name v = k) → services_grow l (Map_set k v l).
Proof.
  intros Hname. split.
  - rewrite Map_set_keys. destruct (Map_get k l); [done|by apply prefix_app_r].
  - intros [Hnd Hall]. split.
    + rewrite Map_set_keys. destruct (Map_get k l) eqn:Hget; [done|].
      apply NoDup_app. split; [done|]. split; [|apply NoDup_singleton].
      intros x Hx Hk. apply list_elem_of_singleton in Hk as ->.
      by apply Map_get_None_keys in Hget.
    + apply Map_set_Forall; [done|]. apply Hname. by split.
Qed.

Lemma services_grow_close (ws : Conn) (t : number) (l : list (string * ServiceInfo)) :
  services_grow l (close_scan ws t l).1.
Proof.
  split; [by rewrite close_scan_keys|].
  intros [Hnd Hall]. split; [by rewrite close_scan_keys|].
  clear Hnd. induction Hall as [|[n v] l Hp Hall IH]; [constructor|].
  cbn [close_scan]. destruct (decide _).
  - constructor; done.
  - destruct (close_scan ws t l) as [l' evs]. cbn in *. constructor; done.
Qed.

Lemma services_grow_sweep (t : number) (l : list (string * ServiceInfo)) :
  services_grow l (sweep_scan t l).1.
Proof.
  rewrite sweep_scan_spec. cbn [fst].
  assert (((λ p : string * ServiceInfo,
              (p.1, if expired t p.2 then mark_disconnected p.2 else p.2)) <$> l).*1
          = l.*1) as Hk.
  { rewrite <- list_fmap_compose. apply list_fmap_ext. by intros i [n v] _. }
  split; [by rewrite Hk|].
  intros [Hnd Hall]. split; [by rewrite Hk|].
  apply Forall_fmap. eapply Forall_impl; [exact Hall|].
  intros [n v] Hn. cbn in *. destruct (expired t v); done.
Qed.

Section ServicesInvariant.
Context `{!Host}.

Ltac handler_cases :=
  repeat match goal with
         | |- context [match ?x with _ => _ end] => destruct x eqn:?; cbn
         end.

Lemma wf_name_of_get (l : list (string * ServiceInfo)) (k : string) (v : ServiceInfo) :
  Map_get k l = Some v → services_wf l → svc_name v = k.
Proof.
  intros Hget [_ Hall]. apply Map_get_elem_of in Hget.
  rewrite Forall_forall in Hall. exact (Hall _ Hget).
Qed.

Lemma services_trimAlerts (s : Dashboard) : services (trimAlerts s) = services s.
Proof. unfold trimAlerts. destruct (decide _); reflexivity. Qed.

Lemma services_grow_handleLeakAlert m e (s : Dashboard) :
  services_grow (services s) (services (handleLeakAlert m e s)).
Proof.
  unfold handleLeakAlert. cbn [services broadcastToClients set_published].
  rewrite services_trimAlerts.
  destruct (Map_get (m_service m) (services s)) as [v|] eqn:Hget;
    cbn [services set_alerts set_services]; [|apply services_grow_refl].
  apply services_grow_Map_set. intros Hwf. cbn. by eapply wf_name_of_get.
Qed.

Lemma services_grow_step (s : Dashboard) (i : Input) :
  services_grow (services s) (services (step s i)).
Proof.
  destruct i as [ws d|ws msg e|ws e|e|r o e]; cbn [step].
  - unfold on_connection. destruct d; apply services_grow_refl.
  - destruct msg; cbn [handleAgentMessage]; try apply services_grow_refl.
    + unfold handleServiceRegistration. cbn.
      destruct (metrics s !! service); cbn; by apply services_grow_Map_set.
    + unfold handleMetrics. cbv zeta. cbn [services broadcastToClients set_published].
      eapply services_grow_trans;
        [|destruct (m_leakDetected m);
          [apply services_grow_handleLeakAlert|apply services_grow_refl]].
      cbn [services set_metrics].
      destruct (Map_get (m_service m) (services s)) as [v|] eqn:Hget;
        cbn [services set_services]; [|apply services_grow_refl].
      apply services_grow_Map_set. intros Hwf. cbn. by eapply wf_name_of_get.
    + unfold handleSnapshot. cbn [services broadcastToClients set_published].
      rewrite services_trimAlerts. apply services_grow_refl.
    + unfold handleCaptureAgentRegistration. cbn. by apply services_grow_Map_set.
    + unfold handleSnapshotChunk. handler_cases; apply services_grow_refl.
    + unfold handleSnapshotComplete. handler_cases; apply services_grow_refl.
    + unfold handleComparisonReady. cbn. handler_cases; apply services_grow_refl.
  - unfold on_close. cbn [services set_dashboardClients].
    pose proof (services_grow_close ws (inject_Z (now e)) (services s)) as Hg.
    destruct (close_scan _ _ _). exact Hg.
  - unfold on_sweep.
    pose proof (services_grow_sweep (inject_Z (now e)) (services s)) as Hg.
    destruct (sweep_scan _ _). exact Hg.
  - unfold analysisSettled, comparison_catch. handler_cases; apply services_grow_refl.
Qed.

Lemma services_grow_run (inputs : list Input) : ∀ s,
  services_grow (services s) (services (run s inputs)).
Proof.
  induction inputs as [|i inputs IH]; intros s; [apply services_grow_refl|].
  cbn [run foldl]. fold (run (step s i) inputs).
  eapply services_grow_trans; [apply services_grow_step|apply IH].
Qed.

(** X18. No input ever removes or moves a service: from any state, the
    names registered so far stay, in the same order, at the head of the
    services map.  In every execution from the empty server the map holds no
    name twice and each record's [name] is the key it is stored under (the
    name under which its last metric is looked up). *)
Theorem services_are_never_removed (s : Dashboard) (inputs : list Input) :
  (services s).*1 `prefix_of` (services (run s inputs)).*1
  ∧ NoDup (services (run initial inputs)).*1
  ∧ Forall (λ p, svc_name p.2 = p.1) (services (run initial inputs)).
Proof.
  split; [apply services_grow_run|].
  apply (services_grow_run inputs initial). split; [apply NoDup_nil_2|constructor].
Qed.

End ServicesInvariant.

(** ** The snapshot table *)

Section SnapshotTable.
Context `{!Host}.

Ltac handler_cases :=
  repeat match goal with
         | |- context [match ?x with _ => _ end] => destruct x eqn:?; cbn
         end.

Lemma snapshots_step (s : Dashboard) (i : Input) :
  (∀ id, is_Some (snapshots s !! id) → is_Some (snapshots (step s i) !! id))
  ∧ (snapshots_wf (snapshots s) → snapshots_wf (snapshots (step s i))).
Proof.
  assert (snapshots (step s i) = snapshots s →
    (∀ id, is_Some (snapshots s !! id) → is_Some (snapshots (step s i) !! id))
    ∧ (snapshots_wf (snapshots s) → snapshots_wf (snapshots (step s i)))) as Hsame
    by (intros ->; done).
  destruct i as [ws d|ws msg e|ws e|e|r o e];
    try (apply Hsame, snapshots_step_other; done).
  destruct msg as [| | | |announced|snapshotId chunkIndex totalChunks data|snapshotId| |];
    try (apply Hsame, snapshots_step_other; done); cbn [step handleAgentMessage].
  - unfold handleSnapshotMetadata. cbn. split.
    + intros id Hid. rewrite lookup_insert_is_Some.
      destruct (decide (snap_id announced = id)); auto.
    + intros Hwf id snap Hl. apply lookup_insert_Some in Hl as [[<- <-]|[_ Hl]]; [|by apply Hwf].
      cbn. eauto.
  - unfold handleSnapshotChunk.
    destruct (snapshots s !! snapshotId) as [snap|] eqn:Hsnap; [|done]. cbn. split.
    + intros id Hid. rewrite lookup_insert_is_Some. destruct (decide (snapshotId = id)); auto.
    + intros Hwf id snap' Hl. apply lookup_insert_Some in Hl as [[<- <-]|[_ Hl]]; [|by apply Hwf].
      destruct (Hwf _ _ Hsnap) as (Hid & _ & _). cbn. split; [|eauto].
      unfold init_chunks. destruct (snap_chunks snap); exact Hid.
  - unfold handleSnapshotComplete.
    destruct (snapshots s !! snapshotId) as [snap|] eqn:Hsnap; [|done].
    destruct (snap_chunks snap) as [chunks|] eqn:Hchunks; [|done].
    cbv zeta.
    match goal with
    | |- context [if fs_ok e then broadcastToClients ?ev (set_files ?f ?t) else ?t] =>
        assert (snapshots (if fs_ok e then broadcastToClients ev (set_files f t) else t)
                = snapshots t) as Hfs by (destruct (fs_ok e); reflexivity)
    end.
    rewrite Hfs. cbn. split.
    + intros id Hid. rewrite lookup_insert_is_Some. destruct (decide (snapshotId = id)); auto.
    + intros Hwf id snap' Hl. apply lookup_insert_Some in Hl as [[<- <-]|[_ Hl]]; [|by apply Hwf].
      destruct (Hwf _ _ Hsnap) as (Hid & _ & Hr). cbn. eauto.
Qed.

(** X19. A snapshot, once announced, is never removed from the snapshot
    table, whatever the inputs.  In every execution from the empty server
    each stored snapshot sits under its own id and has a chunk table and a
    received counter, so the lazy allocation in [handleSnapshotChunk] is
    never taken: a chunk message never sets [totalChunks], which stays as
    announced. *)
Theorem snapshots_are_never_removed (s : Dashboard) (inputs : list Input) (id : string) :
  (is_Some (snapshots s !! id) → is_Some (snapshots (run s inputs) !! id))
  ∧ match snapshots (run initial inputs) !! id with
    | Some snap =>
        snap_id snap = id
        ∧ is_Some (snap_chunks snap) ∧ is_Some (snap_receivedChunks snap)
        ∧ ∀ totalChunks, init_chunks totalChunks snap = snap
    | None => True
    end.
Proof.
  split.
  - revert s. induction inputs as [|i inputs IH]; intros s Hs; [exact Hs|].
    cbn [run foldl]. fold (run (step s i) inputs).
    apply IH. by apply snapshots_step.
  - assert (snapshots_wf (snapshots (run initial inputs))) as Hwf.
    { assert (snapshots_wf (snapshots initial)) as Hinit
        by (intros k v Hl; cbn in Hl; by rewrite lookup_empty in Hl).
      revert Hinit. generalize initial as t.
      induction inputs as [|i inputs IH]; intros t Ht; [exact Ht|].
      cbn [run foldl]. fold (run (step t i) inputs).
      apply IH. by apply snapshots_step. }
    destruct (snapshots (run initial inputs) !! id) as [snap|] eqn:Hl; [|done].
    destruct (Hwf _ _ Hl) as (Hid & Hc & Hr). repeat split; try done.
    intros totalChunks. unfold init_chunks. destruct Hc as [c ->]. reflexivity.
Qed.

End SnapshotTable.

(** ** Chunks and completion at the edges *)

Lemma array_set_same (a : list (option string)) (i : nat) (d : string) :
  array_get a i = Some d → array_set a i d = a.
Proof.
  unfold array_get, array_set. intros Hget.
  destruct (a !! i) as [o|] eqn:Hl; [|discriminate]. cbn in Hget. subst o.
  rewrite decide_True by (eapply lookup_lt_Some; exact Hl).
  by apply list_insert_id.
Qed.

Section ChunkEdges.
Context `{!Host}.

(** X20. Chunk messages and a completion message for an id that was never
    announced are dropped without trace: from a state that does not know
    the id, any number of chunks followed by the completion leaves the whole
    state as it was (no table entry, no file, no frame). *)
Theorem unannounced_snapshot_is_ignored (s : Dashboard) (ws : Conn) (snapshotId : string)
    (totalChunks : nat) (e : Env) (cs : list (nat * string)) :
  snapshots s !! snapshotId = None →
  run s (chunk_inputs ws snapshotId totalChunks e cs
         ++ [Message ws (snapshot_complete snapshotId) e]) = s.
Proof.
  intros Hnone. rewrite run_app.
  assert (run s (chunk_inputs ws snapshotId totalChunks e cs) = s) as ->.
  { induction cs as [|[i d] cs IH]; [reflexivity|].
    cbn [chunk_inputs fmap list_fmap run foldl step handleAgentMessage fst snd].
    unfold handleSnapshotChunk at 1. rewrite Hnone. exact IH. }
  cbn. unfold handleSnapshotComplete. by rewrite Hnone.
Qed.



(** X22. Announcing a snapshot discards what the table held for that id:
    when the announcement carries no data, a completion message that
    follows at once persists an empty file under the announced name and
    leaves the snapshot without data, so a snapshot that was complete is
    missing again for comparisons. *)
Theorem reannouncement_discards_snapshot (s : Dashboard) (ws : Conn)
    (snapshot : SnapshotData) (e e' : Env) :
  snap_data snapshot = None →
  fs_ok e' = true →
  files (run s [Message ws (snapshot_metadata snapshot) e;
                Message ws (snapshot_complete (snap_id snapshot)) e'])
    !! path_join snapshotsDir (snap_filename snapshot) = Some EmptyString
  ∧ has_data (snapshots (run s [Message ws (snapshot_metadata snapshot) e]) !! snap_id snapshot)
    = false
  ∧ has_data (snapshots (run s [Message ws (snapshot_metadata snapshot) e;
                                Message ws (snapshot_complete (snap_id snapshot)) e'])
              !! snap_id snapshot) = false
  ∧ ((snap_receivedChunks <$> snapshots (run s [Message ws (snapshot_metadata snapshot) e])
        !! snap_id snapshot) = Some (Some 0)).
Proof.
  intros Hdata Hfs. cbn [run foldl step handleAgentMessage].
  unfold handleSnapshotComplete, handleSnapshotMetadata. cbn.
  rewrite !lookup_insert_eq. cbn. rewrite Hfs. cbn. rewrite !lookup_insert_eq. cbn.
  rewrite Hdata. done.
Qed.

(** X23. When the file system refuses the write, a completion message
    still assigns the joined chunks to the snapshot's [data], but writes no
    file and broadcasts no [snapshotCompleted]. *)
Theorem failed_write_still_sets_data (s : Dashboard) (ws : Conn) (snapshotId : string)
    (e : Env) (snap : SnapshotData) (chunks : list (option string)) :
  snapshots s !! snapshotId = Some snap →
  snap_chunks snap = Some chunks →
  fs_ok e = false →
  (snap_data <$> snapshots (handleSnapshotComplete ws snapshotId e s) !! snapshotId)
    = Some (Some (join chunks))
  ∧ files (handleSnapshotComplete ws snapshotId e s) = files s
  ∧ published (handleSnapshotComplete ws snapshotId e s) = published s.
Proof.
  intros Hsnap Hchunks Hfs. unfold handleSnapshotComplete.
  rewrite Hsnap, Hchunks, Hfs. cbn. by rewrite lookup_insert_eq.
Qed.

(** X24. Replaying a chunk message with the index and the data already
    stored leaves the chunk table, and so the bytes a completion would
    persist, as they were; only [receivedChunks] moves, by one. *)
Theorem replayed_chunk_keeps_the_bytes (s : Dashboard) (ws : Conn) (snapshotId : string)
    (chunkIndex totalChunks : nat) (data : string) (snap : SnapshotData)
    (chunks : list (option string)) :
  snapshots s !! snapshotId = Some snap →
  snap_chunks snap = Some chunks →
  array_get chunks chunkIndex = Some data →
  ∃ snap',
    snapshots (handleSnapshotChunk ws snapshotId chunkIndex totalChunks data s) !! snapshotId
      = Some snap'
    ∧ snap_chunks snap' = Some chunks
    ∧ join (default [] (snap_chunks snap')) = join chunks
    ∧ snap_receivedChunks snap' = Some (default 0 (snap_receivedChunks snap) + 1)
    ∧ snap_data snap' = snap_data snap
    ∧ files (handleSnapshotChunk ws snapshotId chunkIndex totalChunks data s) = files s.
Proof.
  intros Hsnap Hchunks Hget. unfold handleSnapshotChunk. rewrite Hsnap. cbn.
  rewrite lookup_insert_eq. eexists. split; [reflexivity|].
  unfold init_chunks. rewrite Hchunks. cbn. rewrite Hchunks. cbn.
  rewrite (array_set_same _ _ _ Hget). done.
Qed.

End ChunkEdges.

Lemma unannounced_snapshot_is_ignored_witness :
  snapshots pending_state !! "nowhere" = None
  ∧ run (H := node_host) pending_state
      (chunk_inputs 1 "nowhere" 2 env0 [(0, "x"); (1, "y")]
       ++ [Message 1 (snapshot_complete "nowhere") env0]) = pending_state.
Proof.
  assert (snapshots pending_state !! "nowhere" = None) as Hnone by reflexivity.
  split; [exact Hnone|].
  exact (unannounced_snapshot_is_ignored (H := node_host) pending_state 1 "nowhere" 2 env0
           [(0, "x"); (1, "y")] Hnone).
Defined.

Lemma reannouncement_discards_snapshot_witness :
  has_data (snapshots pending_state !! "before_svc-a_1") = true
  ∧ files pending_state !! "dashboard-snapshots/b.heapsnapshot" = Some "abc"
  ∧ files (run (H := node_host) pending_state
             [Message 1 (snapshot_metadata (meta "before_svc-a_1" before "b.heapsnapshot" 1)) env0;
              Message 1 (snapshot_complete "before_svc-a_1") env0])
      !! "dashboard-snapshots/b.heapsnapshot" = Some EmptyString.
Proof.
  split; [reflexivity|]. split; [reflexivity|].
  apply (reannouncement_discards_snapshot (H := node_host) pending_state 1
           (meta "before_svc-a_1" before "b.heapsnapshot" 1) env0 env0);
    reflexivity.
Defined.

Lemma failed_write_still_sets_data_witness :
  files (handleSnapshotComplete (H := node_host) 1 "s1" env_disk_full
           (run (H := node_host) initial (take 2 early_complete_inputs))) = ∅
  ∧ (snap_data <$> snapshots (handleSnapshotComplete (H := node_host) 1 "s1" env_disk_full
         (run (H := node_host) initial (take 2 early_complete_inputs))) !! "s1")
    = Some (Some "abc").
Proof.
  destruct (failed_write_still_sets_data (H := node_host)
              (run (H := node_host) initial (take 2 early_complete_inputs))
              1 "s1" env_disk_full
              {| snap_id := "s1"; snap_serviceName := "svc-a"; snap_containerId := "c1";
                 snap_phase := before; snap_timestamp := "2024-01-01T00:00:00Z";
                 snap_size := 9; snap_filename := "b.heapsnapshot"; snap_data := None;
                 snap_chunks := Some [Some "abc"]; snap_totalChunks := Some 3;
                 snap_receivedChunks := Some 1 |}
              [Some "abc"]) as (Hd & Hf & _).
  - vm_compute. reflexivity.
  - reflexivity.
  - reflexivity.
  - split; [rewrite Hf; reflexivity|exact Hd].
Defined.

Lemma replayed_chunk_keeps_the_bytes_witness :
  ∃ snap',
    snapshots (handleSnapshotChunk 1 "s1" 0 3 "abc"
                 (run (H := node_host) initial (take 2 early_complete_inputs))) !! "s1"
      = Some snap'
    ∧ snap_chunks snap' = Some [Some "abc"]
    ∧ snap_receivedChunks snap' = Some 2.
Proof.
  destruct (replayed_chunk_keeps_the_bytes
              (run (H := node_host) initial (take 2 early_complete_inputs))
              1 "s1" 0 3 "abc"
              {| snap_id := "s1"; snap_serviceName := "svc-a"; snap_containerId := "c1";
                 snap_phase := before; snap_timestamp := "2024-01-01T00:00:00Z";
                 snap_size := 9; snap_filename := "b.heapsnapshot"; snap_data := None;
                 snap_chunks := Some [Some "abc"]; snap_totalChunks := Some 3;
                 snap_receivedChunks := Some 1 |}
              [Some "abc"]) as (snap' & Hs & Hc & _ & Hr & _).
  - vm_compute. reflexivity.
  - reflexivity.
  - reflexivity.
  - exists snap'. done.
Defined.

(** ** Comparisons *)

Section Comparisons.
Context `{!Host}.

Lemma handleComparisonReady_objects (s : Dashboard) ws serviceName containerId
    beforeSnapshotId afterSnapshotId timeframe timestamp e :
  let s' := handleComparisonReady ws serviceName containerId beforeSnapshotId
              afterSnapshotId timeframe timestamp e s in
  let sessionId := "comparison_" +:+ serviceName +:+ "_" +:+ show_number (inject_Z (now e)) in
  ∃ session,
    sessionObjects s' = sessionObjects s ++ [session]
    ∧ sess_id session = sessionId
    ∧ sess_serviceName session = serviceName
    ∧ sess_beforeSnapshotId session = beforeSnapshotId
    ∧ sess_afterSnapshotId session = afterSnapshotId
    ∧ sess_result session = None
    ∧ sess_status session
      = (if has_data (snapshots s !! beforeSnapshotId)
            && has_data (snapshots s !! afterSnapshotId)
         then analyzing else waiting)
    ∧ comparisonSessions s'
      = <[sessionId := length (sessionObjects s)]> (comparisonSessions s)
    ∧ snapshots s' = snapshots s ∧ alerts s' = alerts s.
Proof.
  cbv zeta. unfold handleComparisonReady. cbn.
  destruct (has_data _ && has_data _); cbn.
  - eexists. split.
    + rewrite <- (Nat.add_0_r (length (sessionObjects s))) at 1.
      rewrite alter_app_r. reflexivity.
    + done.
  - eexists. split; [reflexivity|done].
Qed.

(** X25. When both snapshots named by a comparison-ready message have
    data, the new session is registered under its id, goes from waiting to
    analyzing at once, one [comparisonStarted] frame is broadcast, and the
    handler is left suspended on the analyzer; nothing is recorded in the
    alert ring yet. *)
Theorem comparison_starts_when_both_have_data (s : Dashboard) (ws : Conn)
    (serviceName containerId beforeSnapshotId afterSnapshotId : string)
    (timeframe : number) (timestamp : string) (e : Env) :
  has_data (snapshots s !! beforeSnapshotId) && has_data (snapshots s !! afterSnapshotId)
    = true →
  let s' := handleComparisonReady ws serviceName containerId beforeSnapshotId
              afterSnapshotId timeframe timestamp e s in
  let sessionId := "comparison_" +:+ serviceName +:+ "_" +:+ show_number (inject_Z (now e)) in
  let r := length (sessionObjects s) in
  published s' = published s ++
    [comparisonStarted sessionId serviceName beforeSnapshotId afterSnapshotId]
  ∧ comparisonSessions s' !! sessionId = Some r
  ∧ (sess_status <$> sessionObjects s' !! r) = Some analyzing
  ∧ (sess_result <$> sessionObjects s' !! r) = Some None
  ∧ statusWrites s' = statusWrites s ++ [(r, waiting); (r, analyzing)]
  ∧ awaiting s' = awaiting s ++ [r]
  ∧ alerts s' = alerts s.
Proof.
  intros Hboth. cbv zeta.
  destruct (handleComparisonReady_objects s ws serviceName containerId beforeSnapshotId
              afterSnapshotId timeframe timestamp e)
    as (session & Ho & _ & _ & _ & _ & Hres & Hst & Hmap & _ & Hal).
  rewrite Hboth in Hst. rewrite Ho, Hmap, Hal.
  rewrite lookup_insert_eq, lookup_app_r, Nat.sub_diag by lia. cbn. rewrite Hst, Hres.
  unfold handleComparisonReady. cbn. rewrite Hboth. cbn.
  rewrite <- app_assoc. done.
Qed.

(** X26. What the settling of the analysis does for the session whose
    handler was suspended on it.  A rejection sets the session to failed and
    broadcasts [comparisonFailed] with the error text; no alert.  A report
    that is not suspicious sets it to completed with the report as result
    and broadcasts [comparisonCompleted]; no alert.  A suspicious report
    that carries [totalGrowthMB] does the same and appends to the alert ring
    one leak alert whose id is the alert counter (then incremented), whose
    severity is critical when the growth is above 50 and warning otherwise
    (50 itself is a warning), and for which no frame is broadcast.  In each
    case the handler is no longer suspended. *)
Theorem analysis_outcome_effects (s : Dashboard) (r : nat) (outcome : AnalysisOutcome)
    (e : Env) (o : ComparisonSession) :
  r ∈ awaiting s →
  sessionObjects s !! r = Some o →
  let s' := analysisSettled r outcome e s in
  (r ∉ awaiting s')
  ∧ match outcome with
    | Rejected error =>
        sessionObjects s' !! r = Some (with_status failed o)
        ∧ published s' = published s
            ++ [comparisonFailed (sess_id o) (sess_serviceName o) error]
        ∧ alerts s' = alerts s ∧ alertCounter s' = alertCounter s
    | Resolved analysis =>
        if suspiciousGrowth analysis then
          match totalGrowthMB analysis with
          | Some growth =>
              sessionObjects s' !! r
                = Some (with_result analysis (with_status completed o))
              ∧ published s' = published s
                  ++ [comparisonCompleted (sess_id o) (sess_serviceName o) analysis]
              ∧ alertCounter s' = (alertCounter s + 1)%Z
              ∧ ∃ a, alerts s' = alerts s ++ [a]
                   ∧ alert_id a = inject_Z (alertCounter s)
                   ∧ alert_type a = leak
                   ∧ alert_service a = sess_serviceName o
                   ∧ alert_timestamp a = inject_Z (now e)
                   ∧ alert_severity a = (if Qgtb growth 50 then critical else warning)
                   ∧ (Qgtb growth 50 = true ↔ (50 < growth)%Q)
          | None => True
          end
        else
          sessionObjects s' !! r = Some (with_result analysis (with_status completed o))
          ∧ published s' = published s
              ++ [comparisonCompleted (sess_id o) (sess_serviceName o) analysis]
          ∧ alerts s' = alerts s ∧ alertCounter s' = alertCounter s
    end.
Proof.
  intros Hr Ho. cbv zeta. split.
  - unfold analysisSettled. rewrite decide_True by done. rewrite Ho.
    assert (r ∉ filter (λ r', r' ≠ r) (awaiting s)) as Hnot
      by (rewrite list_elem_of_filter; intros [? _]; done).
    unfold comparison_catch.
    destruct outcome as [a|err]; [destruct (suspiciousGrowth a); [destruct (totalGrowthMB a)|]|];
      cbn; exact Hnot.
  - unfold analysisSettled. rewrite decide_True by done. rewrite Ho.
    destruct outcome as [a|err].
    + destruct (suspiciousGrowth a); [destruct (totalGrowthMB a) as [g|]; [|done]|].
      * cbn. rewrite !list_lookup_alter_eq, Ho. cbn.
        split; [reflexivity|]. split; [reflexivity|]. split; [reflexivity|].
        eexists. split; [reflexivity|]. cbn. repeat split; apply Qgtb_lt.
      * cbn. rewrite !list_lookup_alter_eq, Ho. done.
    + cbn. rewrite !list_lookup_alter_eq, Ho. done.
Qed.

(** X27. Two comparison-ready messages for the same service handled at the
    same clock reading get the same session id: both session objects exist,
    but the sessions map holds one entry for that id, the second session,
    and the first can no longer be looked up by id. *)
Theorem same_millisecond_sessions_share_an_id (s : Dashboard) (ws ws' : Conn)
    (serviceName containerId containerId' before1 after1 before2 after2 : string)
    (timeframe timeframe' : number) (timestamp timestamp' : string) (e e' : Env) :
  now e' = now e →
  let s1 := handleComparisonReady ws serviceName containerId before1 after1
              timeframe timestamp e s in
  let s2 := handleComparisonReady ws' serviceName containerId' before2 after2
              timeframe' timestamp' e' s1 in
  let sessionId := "comparison_" +:+ serviceName +:+ "_" +:+ show_number (inject_Z (now e)) in
  let r := length (sessionObjects s) in
  comparisonSessions s1 !! sessionId = Some r
  ∧ comparisonSessions s2 !! sessionId = Some (S r)
  ∧ comparisonSessions s2 = <[sessionId := S r]> (comparisonSessions s)
  ∧ (sess_id <$> sessionObjects s2 !! r) = Some sessionId
  ∧ (sess_id <$> sessionObjects s2 !! S r) = Some sessionId
  ∧ (sess_beforeSnapshotId <$> sessionObjects s2 !! r) = Some before1
  ∧ (sess_beforeSnapshotId <$> sessionObjects s2 !! S r) = Some before2.
Proof.
  intros Hnow. cbv zeta.
  destruct (handleComparisonReady_objects s ws serviceName containerId before1 after1
              timeframe timestamp e)
    as (o1 & Ho1 & Hid1 & _ & Hb1 & _ & _ & _ & Hm1 & _).
  destruct (handleComparisonReady_objects
              (handleComparisonReady ws serviceName containerId before1 after1
                 timeframe timestamp e s)
              ws' serviceName containerId' before2 after2 timeframe' timestamp' e')
    as (o2 & Ho2 & Hid2 & _ & Hb2 & _ & _ & _ & Hm2 & _).
  rewrite Hnow in Hid2, Hm2. rewrite Ho2, Hm2, Hm1, Ho1.
  rewrite length_app. cbn [length]. rewrite Nat.add_1_r.
  rewrite insert_insert_eq, !lookup_insert_eq.
  split; [reflexivity|]. split; [reflexivity|]. split; [reflexivity|].
  assert (((sessionObjects s ++ [o1]) ++ [o2]) !! length (sessionObjects s) = Some o1) as ->.
  { rewrite lookup_app_l by (rewrite length_app; cbn; lia).
    rewrite lookup_app_r by lia. by rewrite Nat.sub_diag. }
  assert (((sessionObjects s ++ [o1]) ++ [o2]) !! S (length (sessionObjects s)) = Some o2) as ->.
  { rewrite lookup_app_r by (rewrite length_app; cbn; lia).
    rewrite length_app. cbn [length].
    replace (S (length (sessionObjects s)) - (length (sessionObjects s) + 1)) with 0 by lia.
    reflexivity. }
  cbn. rewrite Hid1, Hid2, Hb1, Hb2. done.
Qed.

End Comparisons.

Lemma comparison_starts_when_both_have_data_witness :
  has_data (snapshots (run (H := node_host) initial two_snapshots) !! "before_svc-a_1")
    && has_data (snapshots (run (H := node_host) initial two_snapshots) !! "after_svc-a_2")
    = true
  ∧ awaiting (step (H := node_host) (run (H := node_host) initial two_snapshots)
                compare_message) = [0].
Proof.
  assert (has_data (snapshots (run (H := node_host) initial two_snapshots) !! "before_svc-a_1")
          && has_data (snapshots (run (H := node_host) initial two_snapshots)
                         !! "after_svc-a_2") = true) as Hboth by (vm_compute; reflexivity).
  split; [exact Hboth|].
  destruct (comparison_starts_when_both_have_data (H := node_host)
              (run (H := node_host) initial two_snapshots) 1 "svc-a" "c1"
              "before_svc-a_1" "after_svc-a_2" 60 "2024-01-01T00:01:00Z" env0 Hboth)
    as (_ & _ & _ & _ & _ & Haw & _).
  etransitivity; [exact Haw|]. vm_compute. reflexivity.
Defined.

Lemma analysis_outcome_effects_witness :
  0 ∈ awaiting (run (H := node_host) initial (two_snapshots ++ [compare_message]))
  ∧ alertCounter (analysisSettled (H := node_host) 0 (Resolved fallback_report) env0
      (run (H := node_host) initial (two_snapshots ++ [compare_message]))) = 2%Z.
Proof.
  assert (0 ∈ awaiting (run (H := node_host) initial (two_snapshots ++ [compare_message])))
    as Hin by (vm_compute; left).
  split; [exact Hin|].
  destruct (analysis_outcome_effects (H := node_host)
              (run (H := node_host) initial (two_snapshots ++ [compare_message]))
              0 (Resolved fallback_report) env0
              {| sess_id := "comparison_svc-a_1700000000000"; sess_serviceName := "svc-a";
                 sess_containerId := "c1"; sess_beforeSnapshotId := "before_svc-a_1";
                 sess_afterSnapshotId := "after_svc-a_2"; sess_timeframe := 60;
                 sess_status := analyzing; sess_result := None;
                 sess_createdAt := 1700000000000 |} Hin)
    as (_ & _ & _ & Hcounter & _).
  - vm_compute. reflexivity.
  - etransitivity; [exact Hcounter|]. vm_compute. reflexivity.
Defined.

Lemma same_millisecond_sessions_share_an_id_witness :
  comparisonSessions
    (handleComparisonReady (H := node_host) 2 "svc-a" "c2" "x" "y" 30 "t2" env0
       (handleComparisonReady (H := node_host) 1 "svc-a" "c1" "before_svc-a_1"
          "after_svc-a_2" 60 "t1" env0 initial))
    !! "comparison_svc-a_1700000000000" = Some 1.
Proof.
  destruct (same_millisecond_sessions_share_an_id (H := node_host) initial 1 2 "svc-a"
              "c1" "c2" "before_svc-a_1" "after_svc-a_2" "x" "y" 60 30 "t1" "t2"
              env0 env0 eq_refl) as (_ & H2 & _).
  exact H2.
Defined.

Lemma session_status_path_when_tame_witness :
  Forall tame comparison_inputs
  ∧ status_trace 0 (run (H := node_host) initial comparison_inputs)
    = [waiting; analyzing; completed].
Proof.
  assert (Forall tame comparison_inputs) as Htame.
  { repeat constructor. cbn. intros _. eauto. }
  split; [exact Htame|].
  exact (session_status_path_when_tame (H := node_host) comparison_inputs 0
           {| sess_id := "comparison_svc-a_1700000000000"; sess_serviceName := "svc-a";
              sess_containerId := "c1"; sess_beforeSnapshotId := "before_svc-a_1";
              sess_afterSnapshotId := "after_svc-a_2"; sess_timeframe := 60;
              sess_status := completed; sess_result := Some fallback_report;
              sess_createdAt := 1700000000000 |} Htame eq_refl).
Defined.

Lemma session_not_analyzing_is_final_witness :
  (sess_status <$> sessionObjects (run (H := node_host) initial
      (take 3 two_snapshots ++ [compare_message])) !! 0) = Some waiting
  ∧ (sess_status <$> sessionObjects (run (H := node_host)
      (run (H := node_host) initial (take 3 two_snapshots ++ [compare_message]))
      (drop 3 two_snapshots)) !! 0) = Some waiting.
Proof.
  split; [vm_compute; reflexivity|].
  rewrite (session_not_analyzing_is_final (H := node_host)
             (take 3 two_snapshots ++ [compare_message]) (drop 3 two_snapshots) 0
             {| sess_id := "comparison_svc-a_1700000000000"; sess_serviceName := "svc-a";
                sess_containerId := "c1"; sess_beforeSnapshotId := "before_svc-a_1";
                sess_afterSnapshotId := "after_svc-a_2"; sess_timeframe := 60;
                sess_status := waiting; sess_result := None;
                sess_createdAt := 1700000000000 |}).
  - reflexivity.
  - vm_compute. reflexivity.
  - discriminate.
Defined.

(** ** The standalone HTTP snapshot server *)

Lemma megabytes_above (g k : Z) :
  Qgtb (inject_Z g / inject_Z (1024 * 1024)) (inject_Z k) = true ↔ (k * 1048576 < g)%Z.
Proof.
  rewrite Qgtb_lt. change (1024 * 1024)%Z with 1048576%Z.
  unfold Qlt, Qdiv, Qmult, Qinv, inject_Z. cbn. lia.
Qed.

Lemma megabytes_abs_above (g k : Z) :
  Qgtb (Qabs (inject_Z g / inject_Z (1024 * 1024))) (inject_Z k) = true
  ↔ (k * 1048576 < Z.abs g)%Z.
Proof.
  rewrite Qgtb_lt. change (1024 * 1024)%Z with 1048576%Z.
  unfold Qlt, Qdiv, Qmult, Qinv, inject_Z, Qabs. cbn. lia.
Qed.

(** X28. The analysis of the standalone server's compare route, in bytes:
    growth is flagged suspicious, and counted as one leak, exactly when the
    two sizes differ by more than 1048576 bytes in either direction (a
    difference of exactly 1 MiB is not flagged), while the first
    recommendation warns of growth only when the after snapshot is larger by
    more than 1048576 bytes: a snapshot that shrank by more than 1 MiB is
    flagged suspicious with one leak and the advice that memory is stable. *)
Theorem compare_analysis_thresholds (beforeSize afterSize : nat) :
  (sa_suspiciousGrowth (compare_analysis beforeSize afterSize) = true
   ↔ (1048576 < Z.abs (Z.of_nat afterSize - Z.of_nat beforeSize))%Z)
  ∧ sa_leakCount (compare_analysis beforeSize afterSize)
    = (if sa_suspiciousGrowth (compare_analysis beforeSize afterSize) then 1 else 0)
  ∧ (sa_growthAdvice (compare_analysis beforeSize afterSize) = true
     ↔ (1048576 < Z.of_nat afterSize - Z.of_nat beforeSize)%Z)
  ∧ ((1048576 < Z.of_nat beforeSize - Z.of_nat afterSize)%Z →
     sa_suspiciousGrowth (compare_analysis beforeSize afterSize) = true
     ∧ sa_leakCount (compare_analysis beforeSize afterSize) = 1
     ∧ sa_growthAdvice (compare_analysis beforeSize afterSize) = false)
  ∧ (sa_totalGrowthMB (compare_analysis beforeSize afterSize) * 1048576
     == inject_Z (Z.of_nat afterSize - Z.of_nat beforeSize))%Q.
Proof.
  pose proof (megabytes_abs_above (Z.of_nat afterSize - Z.of_nat beforeSize) 1) as Habs.
  pose proof (megabytes_above (Z.of_nat afterSize - Z.of_nat beforeSize) 1) as Hpos.
  unfold compare_analysis. cbv zeta. cbn [sa_suspiciousGrowth sa_leakCount sa_growthAdvice
    sa_totalGrowthMB].
  change (inject_Z 1) with 1%Q in Habs, Hpos.
  split; [rewrite Habs; lia|]. split; [reflexivity|]. split; [rewrite Hpos; lia|].
  split.
  - intros Hshrink.
    assert (Qgtb (Qabs (inject_Z (Z.of_nat afterSize - Z.of_nat beforeSize)
                        / inject_Z (1024 * 1024))) 1 = true) as Hs by (apply Habs; lia).
    rewrite Hs. split; [reflexivity|]. split; [reflexivity|].
    destruct (Qgtb (inject_Z (Z.of_nat afterSize - Z.of_nat beforeSize)
                    / inject_Z (1024 * 1024)) 1) eqn:Hg; [|reflexivity].
    assert (1 * 1048576 < Z.of_nat afterSize - Z.of_nat beforeSize)%Z
      by (apply Hpos; reflexivity).
    lia.
  - change (1024 * 1024)%Z with 1048576%Z.
    unfold Qeq, Qdiv, Qmult, Qinv, inject_Z. cbn. lia.
Qed.

Section SimpleServerRoutes.
Context `{!Host}.

Lemma given_Some (v : string) : v ≠ EmptyString → given (Some v) = Some v.
Proof. intros Hv. unfold given. by rewrite decide_False. Qed.

Lemma append_nonempty (a b : string) : a ≠ EmptyString → a +:+ b ≠ EmptyString.
Proof. destruct a; [done|]. intros _. discriminate. Qed.

Lemma upload_stores (serviceName containerId phase snapshotData : string)
    (filename : option string) (iso : string) (e : Env) (s : SimpleServer) :
  serviceName ≠ EmptyString → containerId ≠ EmptyString →
  phase ≠ EmptyString → snapshotData ≠ EmptyString →
  let id := phase +:+ "_" +:+ serviceName +:+ "_" +:+ show_number (inject_Z (now e)) in
  let r := upload (Some serviceName) (Some containerId) (Some phase) (Some snapshotData)
             filename iso e s in
  (up_size <$> Map_get id (simple_snapshots r.1)) = Some (String.length snapshotData)
  ∧ (∀ other, other ≠ id →
       Map_get other (simple_snapshots r.1) = Map_get other (simple_snapshots s))
  ∧ r.2 = (if fs_ok e then upload_ok id (String.length snapshotData) else server_error).
Proof.
  intros H1 H2 H3 H4. cbv zeta. unfold upload.
  rewrite !given_Some by done. cbv zeta.
  destruct (fs_ok e); cbn [fst snd simple_snapshots]; rewrite Map_get_set_eq;
    (split; [reflexivity|]); (split; [|reflexivity]);
    intros other Hne; by apply Map_get_set_ne.
Qed.

(** X29. Two snapshots uploaded to the standalone server under different
    ids can be compared afterwards: the compare route answers with the
    analysis of the two payload lengths under the session id
    [comparison_<service>_<now>].  This holds also when the file system
    refused an upload's write: the upload then answers 500, yet the snapshot
    is in the table. *)
Theorem uploaded_snapshots_can_be_compared (s : SimpleServer)
    (service1 container1 phase1 data1 service2 container2 phase2 data2 service : string)
    (filename1 filename2 : option string) (iso1 iso2 : string) (e1 e2 e3 : Env) :
  service1 ≠ EmptyString → container1 ≠ EmptyString →
  phase1 ≠ EmptyString → data1 ≠ EmptyString →
  service2 ≠ EmptyString → container2 ≠ EmptyString →
  phase2 ≠ EmptyString → data2 ≠ EmptyString →
  service ≠ EmptyString →
  phase1 +:+ "_" +:+ service1 +:+ "_" +:+ show_number (inject_Z (now e1))
    ≠ phase2 +:+ "_" +:+ service2 +:+ "_" +:+ show_number (inject_Z (now e2)) →
  let id1 := phase1 +:+ "_" +:+ service1 +:+ "_" +:+ show_number (inject_Z (now e1)) in
  let id2 := phase2 +:+ "_" +:+ service2 +:+ "_" +:+ show_number (inject_Z (now e2)) in
  let r1 := upload (Some service1) (Some container1) (Some phase1) (Some data1)
              filename1 iso1 e1 s in
  let r2 := upload (Some service2) (Some container2) (Some phase2) (Some data2)
              filename2 iso2 e2 r1.1 in
  r1.2 = (if fs_ok e1 then upload_ok id1 (String.length data1) else server_error)
  ∧ r2.2 = (if fs_ok e2 then upload_ok id2 (String.length data2) else server_error)
  ∧ (compare (Some service) (Some id1) (Some id2) e3 r2.1).2
    = compare_ok ("comparison_" +:+ service +:+ "_" +:+ show_number (inject_Z (now e3)))
        (compare_analysis (String.length data1) (String.length data2)).
Proof.
  intros Hs1 Hc1 Hp1 Hd1 Hs2 Hc2 Hp2 Hd2 Hs Hne. cbv zeta.
  destruct (upload_stores service1 container1 phase1 data1 filename1 iso1 e1 s
              Hs1 Hc1 Hp1 Hd1) as (Hget1 & _ & Hr1).
  destruct (upload_stores service2 container2 phase2 data2 filename2 iso2 e2
              (upload (Some service1) (Some container1) (Some phase1) (Some data1)
                 filename1 iso1 e1 s).1 Hs2 Hc2 Hp2 Hd2) as (Hget2 & Hother2 & Hr2).
  split; [exact Hr1|]. split; [exact Hr2|].
  unfold compare. rewrite !given_Some by (try done; by apply append_nonempty).
  cbv zeta. rewrite (Hother2 _ Hne).
  destruct (Map_get _ (simple_snapshots (upload (Some service1) _ _ _ _ _ _ _).1))
    as [b|] eqn:Hb; [|discriminate].
  destruct (Map_get (phase2 +:+ _) _) as [a|] eqn:Ha; [|discriminate].
  cbn in Hget1, Hget2. injection Hget1 as ->. injection Hget2 as ->. reflexivity.
Qed.

End SimpleServerRoutes.

Lemma uploaded_snapshots_can_be_compared_witness :
  (compare (H := node_host) (Some "svc-a")
     (Some "before_svc-a_1700000000000") (Some "after_svc-a_1700000000000") env0
     (upload (H := node_host) (Some "svc-a") (Some "c1") (Some "after") (Some "abcdef")
        None "2024-01-01T00:00:01Z" env_disk_full
        (upload (H := node_host) (Some "svc-a") (Some "c1") (Some "before") (Some "abc")
           None "2024-01-01T00:00:00Z" env0 empty_simple_server).1).1).2
  = compare_ok "comparison_svc-a_1700000000000" (compare_analysis 3 6).
Proof.
  apply (uploaded_snapshots_can_be_compared (H := node_host) empty_simple_server
           "svc-a" "c1" "before" "abc" "svc-a" "c1" "after" "abcdef" "svc-a"
           None None "2024-01-01T00:00:00Z" "2024-01-01T00:00:01Z" env0 env_disk_full env0);
    discriminate.
Defined.

(** ** Severity in the analyzers *)

(** [MemlabHeapAnalyzer.calculateSeverity] on a size in whole bytes:
    critical above 50 MiB (52428800 bytes), high above 10 MiB, medium above
    1 MiB, low otherwise, each bound excluded (exactly 50 MiB is high); the
    severity never goes down when the size goes up. *)
Lemma memlab_severity_by_bytes (bytes bytes' : Z) :
  memlab_calculateSeverity (inject_Z bytes)
  = (if decide (52428800 < bytes)%Z then leak_critical
     else if decide (10485760 < bytes)%Z then leak_high
     else if decide (1048576 < bytes)%Z then leak_medium
     else leak_low)
  ∧ ((bytes <= bytes')%Z →
     severity_rank (memlab_calculateSeverity (inject_Z bytes))
     ≤ severity_rank (memlab_calculateSeverity (inject_Z bytes'))).
Proof.
  assert (∀ b : Z, memlab_calculateSeverity (inject_Z b)
    = (if decide (52428800 < b)%Z then leak_critical
       else if decide (10485760 < b)%Z then leak_high
       else if decide (1048576 < b)%Z then leak_medium
       else leak_low)) as Hspec.
  { intros b. unfold memlab_calculateSeverity. cbv zeta.
    pose proof (megabytes_above b 50) as H50.
    pose proof (megabytes_above b 10) as H10.
    pose proof (megabytes_above b 1) as H1.
    change (inject_Z 50) with 50%Q in H50. change (inject_Z 10) with 10%Q in H10.
    change (inject_Z 1) with 1%Q in H1.
    destruct (Qgtb _ 50) eqn:E50.
    - rewrite decide_True by (apply H50; done). reflexivity.
    - rewrite decide_False by (intros Hlt; apply H50 in Hlt; congruence).
      destruct (Qgtb _ 10) eqn:E10.
      + rewrite decide_True by (apply H10; done). reflexivity.
      + rewrite decide_False by (intros Hlt; apply H10 in Hlt; congruence).
        destruct (Qgtb _ 1) eqn:E1.
        * rewrite decide_True by (apply H1; done). reflexivity.
        * rewrite decide_False by (intros Hlt; apply H1 in Hlt; congruence).
          reflexivity. }
  split; [apply Hspec|]. intros Hle. rewrite !Hspec.
  repeat (destruct (decide _)); cbn; lia.
Qed.

(** [HeapSnapshotAnalyzer]: a type that had no retained size before
    and grew is rated critical however small the growth, because its growth
    rate is [Infinity]; a type that did not grow relative to its earlier
    size (rate at most 0, a shrinking type included) is rated by the
    absolute change of size alone, critical above 100 MiB, high above
    50 MiB, medium above 10 MiB, low otherwise. *)
Lemma new_growing_type_is_critical (delta : positive) (deltaCount deltaSize : Z)
    (rate : number) :
  calculateSeverity (Z.pos delta) deltaCount (growth_rate 0 (Z.pos delta)) = leak_critical
  ∧ ((rate <= 0)%Q →
     calculateSeverity deltaSize deltaCount (Finite rate)
     = (if decide (104857600 < Z.abs deltaSize)%Z then leak_critical
        else if decide (52428800 < Z.abs deltaSize)%Z then leak_high
        else if decide (10485760 < Z.abs deltaSize)%Z then leak_medium
        else leak_low)).
Proof.
  split.
  - unfold calculateSeverity, growth_rate. cbv zeta.
    rewrite decide_False by lia. rewrite decide_True by lia.
    cbn [rate_above]. by rewrite orb_true_r.
  - intros Hrate. unfold calculateSeverity. cbv zeta. cbn [rate_above].
    assert (∀ k : Q, (0 < k)%Q → Qgtb rate k = false) as Hr.
    { intros k Hk. destruct (Qgtb rate k) eqn:Hg; [|reflexivity].
      apply Qgtb_lt in Hg. exfalso. apply (Qlt_irrefl 0).
      eapply Qlt_le_trans; [|exact Hrate]. by eapply Qlt_trans. }
    rewrite !Hr by reflexivity. rewrite !orb_false_r.
    pose proof (megabytes_above (Z.abs deltaSize) 100) as H100.
    pose proof (megabytes_above (Z.abs deltaSize) 50) as H50.
    pose proof (megabytes_above (Z.abs deltaSize) 10) as H10.
    change (inject_Z 100) with 100%Q in H100. change (inject_Z 50) with 50%Q in H50.
    change (inject_Z 10) with 10%Q in H10.
    destruct (Qgtb _ 100) eqn:E100.
    + rewrite decide_True by (apply H100; done). reflexivity.
    + rewrite decide_False by (intros Hlt; apply H100 in Hlt; congruence).
      destruct (Qgtb _ 50) eqn:E50.
      * rewrite decide_True by (apply H50; done). reflexivity.
      * rewrite decide_False by (intros Hlt; apply H50 in Hlt; congruence).
        destruct (Qgtb _ 10) eqn:E10.
        -- rewrite decide_True by (apply H10; done). reflexivity.
        -- rewrite decide_False by (intros Hlt; apply H10 in Hlt; congruence).
           reflexivity.
Qed.

(** X30. Severity in the two analyzers, in whole bytes.
    [MemlabHeapAnalyzer.calculateSeverity] rates a retained size critical
    above 50 MiB, high above 10 MiB, medium above 1 MiB and low otherwise,
    each bound excluded, and never lowers the rating when the size grows.
    [HeapSnapshotAnalyzer] rates a type that had no retained size before
    and grew critical however small the growth (its growth rate is
    [Infinity]), and rates a type whose growth rate is at most 0 by the
    absolute change of size alone: critical above 100 MiB, high above
    50 MiB, medium above 10 MiB, low otherwise. *)
Theorem analyzer_severity_scales (bytes bytes' : Z) (delta : positive)
    (deltaCount deltaSize : Z) (rate : number) :
  memlab_calculateSeverity (inject_Z bytes)
  = (if decide (52428800 < bytes)%Z then leak_critical
     else if decide (10485760 < bytes)%Z then leak_high
     else if decide (1048576 < bytes)%Z then leak_medium
     else leak_low)
  ∧ ((bytes <= bytes')%Z →
     severity_rank (memlab_calculateSeverity (inject_Z bytes))
     ≤ severity_rank (memlab_calculateSeverity (inject_Z bytes')))
  ∧ calculateSeverity (Z.pos delta) deltaCount (growth_rate 0 (Z.pos delta)) = leak_critical
  ∧ ((rate <= 0)%Q →
     calculateSeverity deltaSize deltaCount (Finite rate)
     = (if decide (104857600 < Z.abs deltaSize)%Z then leak_critical
        else if decide (52428800 < Z.abs deltaSize)%Z then leak_high
        else if decide (10485760 < Z.abs deltaSize)%Z then leak_medium
        else leak_low)).
Proof.
  destruct (memlab_severity_by_bytes bytes bytes') as [Hm Hmono].
  destruct (new_growing_type_is_critical delta deltaCount deltaSize rate) as [Hnew Hsize].
  exact (conj Hm (conj Hmono (conj Hnew Hsize))).
Qed.
